(** * Shallow embedding of [stan/model/indexing/lvalue.hpp] (indexed
    assignment) and of the [mpi_auto_adaptation] metric estimator that
    follows it in the same file.

    Integers of the C++ code ([int], [Eigen::Index]) are [Z]; Eigen vectors
    are lists; doubles are idealised as real numbers [R]. *)

From Stdlib Require Import ZArith List Bool Lia Reals Lra FunctionalExtensionality.
Import ListNotations.
Open Scope Z_scope.

(** ** Failures *)

(** What can end an assignment or an adaptation step early.
    [OutOfRange] is [std::out_of_range] from [math::check_range];
    [SizeMismatch] is [std::invalid_argument] from
    [math::check_size_match]; [InvalidArgument] is the
    [std::invalid_argument] of [check_nonzero_size] /
    [check_matching_sizes]; [RuntimeError] is the [std::runtime_error]
    thrown by [learn_metric] (insufficient samples); [EigenAssertion] is a
    violated [eigen_assert] (block or segment out of bounds), which is not
    a C++ exception and is never caught. *)
Inductive fail :=
| OutOfRange
| SizeMismatch
| InvalidArgument
| RuntimeError
| EigenAssertion.

Definition is_exception (e : fail) : bool :=
  match e with EigenAssertion => false | _ => true end.

(** ** A state and exception monad for in-place assignment

    An [assign] overload receives its target by reference: when it throws,
    the writes it already made stay visible to the caller. A computation
    therefore returns the final target together with its outcome. *)

Definition st (S T : Type) := S -> ((T + fail) * S)%type.

Definition st_ret {S T} (t : T) : st S T := fun s => (inl t, s).
Definition st_raise {S T} (e : fail) : st S T := fun s => (inr e, s).
Definition st_bind {S T U} (m : st S T) (k : T -> st S U) : st S U :=
  fun s => match m s with
           | (inl t, s') => k t s'
           | (inr e, s') => (inr e, s')
           end.
Definition st_modify {S} (f : S -> S) : st S unit := fun s => (inl tt, f s).
Definition st_get {S} : st S S := fun s => (inl s, s).

Notation "x <- m ;; k" := (st_bind m (fun x => k))
  (at level 61, m at next level, right associativity).
Notation "m ;;; k" := (st_bind m (fun _ => k))
  (at level 61, right associativity).

(** ** The validation layer ([stan::math] checks) *)

(** [check_range(function, name, max, index)]: throws unless
    [1 <= index <= max] (Stan's error index is 1). *)
Definition check_range {S} (max index : Z) : st S unit :=
  if (1 <=? index) && (index <=? max) then st_ret tt else st_raise OutOfRange.

(** [check_size_match(function, name_i, i, name_j, j)]: throws unless
    [i == j]. *)
Definition check_size_match {S} (i j : Z) : st S unit :=
  if i =? j then st_ret tt else st_raise SizeMismatch.

(** ** Eigen vectors as lists *)

Section Vectors.
Context {A : Type}.

(** [v.coeffRef(k) = a] for [0 <= k < size]. *)
Fixpoint set_nth (k : nat) (a : A) (v : list A) : list A :=
  match v, k with
  | [], _ => []
  | _ :: v', O => a :: v'
  | b :: v', S k' => b :: set_nth k' a v'
  end.

Definition size (v : list A) : Z := Z.of_nat (length v).

(** [x.segment(start, n) = y]: Eigen asserts [0 <= start], [0 <= n],
    [start + n <= x.size()] and, for the assignment, [n == y.size()]. *)
Definition segment_assign (start n : Z) (y : list A) : st (list A) unit :=
  x <- st_get ;;
  if (0 <=? start) && (0 <=? n) && (start + n <=? size x) && (n =? size y)
  then st_modify (fun x =>
         firstn (Z.to_nat start) x ++ y ++ skipn (Z.to_nat (start + n)) x)
  else st_raise EigenAssertion.

End Vectors.

(** ** Indexes ([stan/model/indexing/index.hpp]) *)

(** [index_uni]: a single position [n_]. *)
Record index_uni := { n_ : Z }.

(** [index_min_max]: fields [min_], [max_] and the flag
    [positive_idx_] (ascending when set). *)
Record index_min_max := { min_ : Z; max_ : Z; positive_idx_ : bool }.

Section VectorAssign.
Context {A : Type}.

(** [assign(Vec1&& x, cons_index_list<index_uni, nil_index_list> idxs,
    const U& y)]: [vec[uni] <- scalar]. *)
Definition assign_vec_uni (idx : index_uni) (y : A) : st (list A) unit :=
  x <- st_get ;;
  check_range (size x) (n_ idx) ;;;
  st_modify (set_nth (Z.to_nat (n_ idx - 1)) y).

(** [assign(Vec1&& x, cons_index_list<index_min_max, nil_index_list> idxs,
    const Vec2& y)]: [vec[min_max] <- vec], as written in the source
    (size check against [max_ - 1] / [min_ - 1], and
    [x.segment(min_ - 1, max_ - 1)] whose second argument is a length). *)
Definition assign_vec_min_max (idx : index_min_max) (y : list A)
  : st (list A) unit :=
  x <- st_get ;;
  check_range (size x) (min_ idx) ;;;
  check_range (size x) (max_ idx) ;;;
  if positive_idx_ idx then
    check_size_match (max_ idx - 1) (size y) ;;;
    segment_assign (min_ idx - 1) (max_ idx - 1) y
  else
    check_size_match (min_ idx - 1) (size y) ;;;
    segment_assign (max_ idx - 1) (min_ idx - 1) (rev y).

End VectorAssign.

(** [assign(Vec1&& x, cons_index_list<I, nil_index_list> idxs,
    const Vec2& y)]: [vec[multi] <- vec], for any multiple index type [I]
    with its [rvalue_index_size] and [rvalue_at]
    ([rvalue_index_size.hpp], [rvalue_at.hpp]). *)
Section VectorMultiAssign.
Context {A I : Type}.
Variable rvalue_index_size : I -> Z -> Z.
Variable rvalue_at : nat -> I -> Z.
Variable idx : I.

(** The loop [for (int n = 0; n < y.size(); ++n)]: each position is range
    checked, then written, before the next one is looked at. *)
Fixpoint assign_vec_multi_loop (n : nat) (ys : list A) : st (list A) unit :=
  match ys with
  | [] => st_ret tt
  | y0 :: ys' =>
      x <- st_get ;;
      let i := rvalue_at n idx in
      check_range (size x) i ;;;
      st_modify (set_nth (Z.to_nat (i - 1)) y0) ;;;
      assign_vec_multi_loop (S n) ys'
  end.

Definition assign_vec_multi (y : list A) : st (list A) unit :=
  x <- st_get ;;
  check_size_match (rvalue_index_size idx (size x)) (size y) ;;;
  assign_vec_multi_loop 0 y.

End VectorMultiAssign.

(** Modelled from the spec: [index_multi] and its [rvalue_index_size] /
    [rvalue_at] ([index.hpp], [rvalue_index_size.hpp], [rvalue_at.hpp] are
    not part of the sources at hand): an arbitrary ordered list of
    positions [ns_]; its size is the number of positions and its [n]-th
    resolved position is the [n]-th listed one. *)
Record index_multi := { ns_ : list Z }.

Definition rvalue_index_size_multi (idx : index_multi) (_ : Z) : Z :=
  Z.of_nat (length (ns_ idx)).

Definition rvalue_at_multi (n : nat) (idx : index_multi) : Z :=
  nth n (ns_ idx) 0.

(** ** Eigen matrices as lists of rows *)

(** A dense dynamic matrix: its column count and its rows. *)
Record mat (A : Type) := mk_mat { mcols : Z; mrows : list (list A) }.
Arguments mk_mat {A}.
Arguments mcols {A}.
Arguments mrows {A}.

Section MatrixAssign.
Context {A : Type}.

Definition rows (x : mat A) : Z := Z.of_nat (length (mrows x)).
Definition cols (x : mat A) : Z := mcols x.

(** [x.row(r) = y]: the [Block] constructor asserts [0 <= r < rows]; the
    assignment asserts that the sizes agree. *)
Definition row_assign (r : Z) (y : list A) : st (mat A) unit :=
  x <- st_get ;;
  if (0 <=? r) && (r <? rows x) && (size y =? cols x)
  then st_modify (fun x => mk_mat (mcols x) (set_nth (Z.to_nat r) y (mrows x)))
  else st_raise EigenAssertion.

(** [assign(Mat&& x, cons_index_list<index_uni, nil_index_list> idxs,
    const RowVec& y)]: [mat[uni] = rowvec]. A row vector's [cols()] is its
    length. *)
Definition assign_mat_uni (idx : index_uni) (y : list A) : st (mat A) unit :=
  x <- st_get ;;
  check_size_match (cols x) (size y) ;;;
  check_range (rows x) (n_ idx) ;;;
  row_assign (n_ idx - 1) y.

(** [assign(Mat&& x, cons_index_list<index_uni, cons_index_list<index_omni,
    nil_index_list>> idxs, const RowVec& y)]: [mat[uni,] = rowvec]. *)
Definition assign_mat_uni_omni (idx : index_uni) (y : list A)
  : st (mat A) unit :=
  x <- st_get ;;
  check_size_match (cols x) (size y) ;;;
  row_assign (n_ idx - 1) y.

End MatrixAssign.

Section MatrixAssignMore.
Context {A : Type}.

(** Entry [(i, j)] (0-based) of a matrix, when it exists. *)
Definition mat_get (x : mat A) (i j : nat) : option A :=
  match nth_error (mrows x) i with Some r => nth_error r j | None => None end.

(** [x.coeffRef(i, j) = a]. *)
Definition mat_set (i j : nat) (a : A) (x : mat A) : mat A :=
  mk_mat (mcols x) (set_nth i (set_nth j a (nth i (mrows x) [])) (mrows x)).

(** [assign(Mat&& x, cons_index_list<index_uni, cons_index_list<index_uni,
    nil_index_list>> idxs, const U& y)]: [mat[uni, uni] = scalar]. *)
Definition assign_mat_uni_uni (m n : index_uni) (y : A) : st (mat A) unit :=
  x <- st_get ;;
  check_range (rows x) (n_ m) ;;;
  check_range (cols x) (n_ n) ;;;
  st_modify (mat_set (Z.to_nat (n_ m - 1)) (Z.to_nat (n_ n - 1)) y).

(** [x.col(c) = y]: the [Block] constructor asserts [0 <= c < cols]; the
    assignment asserts that [y] has [rows] entries. *)
Definition col_assign (c : Z) (y : list A) : st (mat A) unit :=
  x <- st_get ;;
  if (0 <=? c) && (c <? cols x) && (size y =? rows x)
  then st_modify (fun x =>
         mk_mat (mcols x)
           (map (fun p => set_nth (Z.to_nat c) (snd p) (fst p))
                (combine (mrows x) y)))
  else st_raise EigenAssertion.

(** [assign(Mat&& x, cons_index_list<index_omni, cons_index_list<index_uni,
    nil_index_list>> idxs, const ColVec& y)]: [mat[,uni] = colvec]. *)
Definition assign_mat_omni_uni (idx : index_uni) (y : list A)
  : st (mat A) unit :=
  x <- st_get ;;
  check_size_match (rows x) (size y) ;;;
  check_range (cols x) (n_ idx) ;;;
  col_assign (n_ idx - 1) y.

(** [x.block(r, c, h, w) = y]: Eigen asserts that the block lies inside
    [x] and that [y] is [h] x [w]. *)
Definition block_assign (r c h w : Z) (y : mat A) : st (mat A) unit :=
  x <- st_get ;;
  if (0 <=? r) && (0 <=? c) && (0 <=? h) && (0 <=? w)
     && (r + h <=? rows x) && (c + w <=? cols x)
     && (rows y =? h) && (cols y =? w)
  then st_modify (fun x =>
         mk_mat (mcols x)
           (firstn (Z.to_nat r) (mrows x)
            ++ map (fun p => firstn (Z.to_nat c) (fst p) ++ snd p
                             ++ skipn (Z.to_nat (c + w)) (fst p))
                   (combine (firstn (Z.to_nat h) (skipn (Z.to_nat r) (mrows x)))
                            (mrows y))
            ++ skipn (Z.to_nat (r + h)) (mrows x)))
  else st_raise EigenAssertion.

(** [y.rowwise().reverse()] (each row reversed), [y.colwise().reverse()]
    (the order of the rows reversed); [y.reverse()] is both. Assigning [y]
    to [block.rowwise().reverse()] writes [y.rowwise().reverse()] into the
    block. *)
Definition mat_rev_cols (y : mat A) : mat A := mk_mat (mcols y) (map (@rev A) (mrows y)).
Definition mat_rev_rows (y : mat A) : mat A := mk_mat (mcols y) (rev (mrows y)).

(** [assign(Mat1&& x, cons_index_list<index_min_max,
    cons_index_list<index_min_max, nil_index_list>> idxs, const Mat2& y)]:
    [mat[min_max, min_max] = mat] with its four orientations. *)
Definition assign_mat_min_max2 (ri ci : index_min_max) (y : mat A)
  : st (mat A) unit :=
  if positive_idx_ ri then
    if positive_idx_ ci then
      let row_size := max_ ri - (min_ ri - 1) in
      let col_size := max_ ci - (min_ ci - 1) in
      check_size_match row_size (rows y) ;;;
      check_size_match col_size (cols y) ;;;
      block_assign (min_ ri - 1) (min_ ci - 1) row_size col_size y
    else
      let row_size := max_ ri - (min_ ri - 1) in
      let col_size := min_ ci - (max_ ci - 1) in
      check_size_match row_size (rows y) ;;;
      check_size_match col_size (cols y) ;;;
      block_assign (min_ ri - 1) (max_ ci - 1) row_size col_size (mat_rev_cols y)
  else
    if positive_idx_ ci then
      let row_size := min_ ri - (max_ ri - 1) in
      let col_size := max_ ci - (min_ ci - 1) in
      check_size_match row_size (rows y) ;;;
      check_size_match col_size (cols y) ;;;
      block_assign (max_ ri - 1) (min_ ci - 1) row_size col_size (mat_rev_rows y)
    else
      let row_size := min_ ri - (max_ ri - 1) in
      let col_size := min_ ci - (max_ ci - 1) in
      check_size_match row_size (rows y) ;;;
      check_size_match col_size (cols y) ;;;
      block_assign (max_ ri - 1) (max_ ci - 1) row_size col_size
        (mat_rev_rows (mat_rev_cols y)).

End MatrixAssignMore.

(** ** Arrays ([std::vector]) *)

Section ArrayAssign.
Context {T U L : Type}.

(** The recursive call [assign(x[k], idxs.tail_, y, name, depth + 1)] run
    on element [k] of the array, which it receives by reference. The
    element exists on every call site (its position has been range
    checked); an access past the end is undefined and is reported as an
    assertion. *)
Definition on_elem (k : nat) (m : st T unit) : st (list T) unit :=
  fun x => match nth_error x k with
           | Some e => let (r, e') := m e in (r, set_nth k e' x)
           | None => (inr EigenAssertion, x)
           end.

(** The assignment of the tail of the index list to one element. *)
Variable tail_assign : L -> U -> st T unit.

(** [assign(StdVec&& x, cons_index_list<index_uni, L> idxs, U&& y)]:
    [x[uni | L] = y]. *)
Definition assign_arr_uni (idx : index_uni) (tail : L) (y : U)
  : st (list T) unit :=
  x <- st_get ;;
  check_range (size x) (n_ idx) ;;;
  on_elem (Z.to_nat (n_ idx - 1)) (tail_assign tail y).

Context {I : Type}.
Variable rvalue_index_size : I -> Z -> Z.
Variable rvalue_at : nat -> I -> Z.

(** [assign(T&& x, cons_index_list<I, L> idxs, U&& y)]:
    [x[multi | L] = y], the loop over [n < y.size()]. *)
Fixpoint assign_arr_multi_loop (idx : I) (tail : L) (n : nat) (ys : list U)
  : st (list T) unit :=
  match ys with
  | [] => st_ret tt
  | y0 :: ys' =>
      x <- st_get ;;
      let i := rvalue_at n idx in
      check_range (size x) i ;;;
      on_elem (Z.to_nat (i - 1)) (tail_assign tail y0) ;;;
      assign_arr_multi_loop idx tail (S n) ys'
  end.

Definition assign_arr_multi (idx : I) (tail : L) (y : list U)
  : st (list T) unit :=
  x <- st_get ;;
  check_size_match (rvalue_index_size idx (size x)) (size y) ;;;
  assign_arr_multi_loop idx tail 0 y.

End ArrayAssign.

(** [assign(T&& x, const nil_index_list&, U&& y)] when [U] is assignable
    to [T]: [x = y], through the conversion [conv] of [U] to [T]. *)
Definition assign_nil {T U : Type} (conv : U -> T) (y : U) : st T unit :=
  st_modify (fun _ => conv y).

(** [std::vector::resize(n)]: truncates, or appends value-initialised
    elements [d]. *)
Definition resize {T : Type} (n : nat) (d : T) (x : list T) : list T :=
  firstn n x ++ repeat d (n - length x).

(** [assign(T&& x, const nil_index_list&, U&& y)] for two [std::vector]s
    whose types are not assignable: [x.resize(y.size())], then
    [assign(x[i], nil_index_list(), y[i], name, depth + 1)] for each [i]. *)
Section ArrayNil.
Context {T U : Type}.
Variable elem_assign : U -> st T unit.
Variable value_init : T.

Fixpoint assign_nil_vec_loop (i : nat) (ys : list U) : st (list T) unit :=
  match ys with
  | [] => st_ret tt
  | y0 :: ys' => on_elem i (elem_assign y0) ;;; assign_nil_vec_loop (S i) ys'
  end.

Definition assign_nil_vec (y : list U) : st (list T) unit :=
  st_modify (resize (length y) value_init) ;;;
  assign_nil_vec_loop 0 y.

End ArrayNil.

(** ** Real-valued linear algebra used by the metric estimator *)

(** A result that is either a value or a failure. *)
Definition res (T : Type) := (T + fail)%type.

Definition res_bind {T U} (m : res T) (k : T -> res U) : res U :=
  match m with inl t => k t | inr e => inr e end.

Notation "'let!' x ':=' m 'in' k" := (res_bind m (fun x => k))
  (at level 200, x pattern, m at level 100, k at level 200).

(** An [Eigen::MatrixXd]: its row and column counts and its entries
    (0-based). *)
Record rmat := mk_rmat { nr : Z; nc : Z; ent : nat -> nat -> R }.

(** An [Eigen::VectorXd]. *)
Definition rvec := list R.

Open Scope R_scope.

Fixpoint sumR (n : nat) (f : nat -> R) : R :=
  match n with O => 0 | S k => sumR k f + f k end.

(** [Eigen::MatrixXd::Zero(m, n)] and [Eigen::MatrixXd::Identity(m, n)]. *)
Definition rzero (m n : Z) : rmat := mk_rmat m n (fun _ _ => 0).
Definition ridentity (m n : Z) : rmat :=
  mk_rmat m n (fun i j => if Nat.eqb i j then 1 else 0).

(** Scalar times matrix, and matrix sum (operands of equal shape). *)
Definition rscale (c : R) (A : rmat) : rmat :=
  mk_rmat (nr A) (nc A) (fun i j => c * ent A i j).
Definition radd (A B : rmat) : rmat :=
  mk_rmat (nr A) (nc A) (fun i j => ent A i j + ent B i j).

(** [d.asDiagonal()] for a vector [d] of [n] entries. *)
Definition as_diagonal (d : nat -> R) (n : Z) : rmat :=
  mk_rmat n n (fun i j => if Nat.eqb i j then d i else 0).

(** [A.diagonal().asDiagonal()]. *)
Definition diagonal_projection (A : rmat) : rmat :=
  as_diagonal (fun i => ent A i i) (Z.min (nr A) (nc A)).

(** [Y.block(r, c, h, w)]: Eigen asserts that the block lies inside [Y]. *)
Definition rblock (Y : rmat) (r c h w : Z) : res rmat :=
  if ((0 <=? r) && (0 <=? c) && (0 <=? h) && (0 <=? w)
      && (r + h <=? nr Y) && (c + w <=? nc Y))%Z
  then inl (mk_rmat h w (fun i j => ent Y (Z.to_nat r + i) (Z.to_nat c + j)))
  else inr EigenAssertion.

(** [stan::math::check_nonzero_size("covariance", "Y", Y)]: throws
    [std::invalid_argument] when [Y.size() == 0]. *)
Definition check_nonzero_size (Y : rmat) : res unit :=
  if (nr Y * nc Y =? 0)%Z then inr InvalidArgument else inl tt.

(** [Y.colwise().mean()], entry [j]. *)
Definition col_mean (Y : rmat) (j : nat) : R :=
  sumR (Z.to_nat (nr Y)) (fun k => ent Y k j) / IZR (nr Y).

(** [internal::covariance]:
    [centered = Y.rowwise() - Y.colwise().mean()] and
    [centered.transpose() * centered / std::max(centered.rows() - 1.0, 1.0)]. *)
Definition covariance (Y : rmat) : res rmat :=
  let! _ := check_nonzero_size Y in
  let centered := fun k j => ent Y k j - col_mean Y j in
  inl (mk_rmat (nc Y) (nc Y)
         (fun i j => sumR (Z.to_nat (nr Y)) (fun k => centered k i * centered k j)
                     / Rmax (IZR (nr Y) - 1) 1)).

(** ** [internal::power_method] *)

Definition dot (u v : rvec) : R :=
  fold_right Rplus 0 (map (fun ab => fst ab * snd ab) (combine u v)).
Definition norm (v : rvec) : R := sqrt (dot v v).
Definition vscale (c : R) (v : rvec) : rvec := map (Rmult c) v.

Definition Rle_bool (x y : R) : bool := if Rle_dec x y then true else false.
Definition Rlt_bool (x y : R) : bool := if Rlt_dec x y then true else false.

Section PowerMethod.
(** The operator [f], a matrix-vector product. *)
Variable f : rvec -> rvec.

(** The [for (; i < max_iterations; ++i)] loop; [max_iterations] only
    changes when the loop breaks, so [Z.to_nat max_iterations] bounds the
    number of rounds. Returns [(eval, max_iterations, tol)]. *)
Fixpoint power_loop (fuel : nat) (i : Z) (v Av : rvec) (eval : R)
  (max_iterations : Z) (tol : R) : R * Z * R :=
  match fuel with
  | O => (eval, max_iterations, tol)
  | S fuel' =>
      if (i <? max_iterations)%Z then
        let v_norm := norm v in
        let new_eval := dot v Av / (v_norm * v_norm) in
        if (i =? max_iterations - 1)%Z
           || Rle_bool (Rabs (new_eval - eval)) (tol * Rabs eval)
        then (new_eval, (i + 1)%Z, Rabs (new_eval - eval) / Rabs eval)
        else
          let v' := vscale (/ norm Av) Av in
          power_loop fuel' (i + 1)%Z v' (f v') new_eval max_iterations tol
      else (eval, max_iterations, tol)
  end.

(** [power_method(f, initial_guess, max_iterations, tol)]: returns the
    estimate together with the final values of the in/out parameters
    [max_iterations] and [tol]. [check_matching_sizes] compares the first
    product with the initial guess. *)
Definition power_method (initial_guess : rvec) (max_iterations : Z) (tol : R)
  : res (R * Z * R) :=
  let v := initial_guess in
  let eval := 0 in
  let Av := f v in
  if negb (Nat.eqb (length Av) (length v)) then inr InvalidArgument
  else inl (power_loop (Z.to_nat max_iterations) 0 v Av eval max_iterations tol).

(** The iterates of the loop: [v] at round [k], the Rayleigh estimate
    [new_eval] computed at round [k], the [eval] it is compared with, and
    the stopping test of round [k]. *)
Fixpoint pm_iterate (v0 : rvec) (k : nat) : rvec :=
  match k with
  | O => v0
  | S k' => let Av := f (pm_iterate v0 k') in vscale (/ norm Av) Av
  end.

Definition pm_estimate (v0 : rvec) (k : nat) : R :=
  let v := pm_iterate v0 k in dot v (f v) / (norm v * norm v).

Definition pm_previous (v0 : rvec) (k : nat) : R :=
  match k with O => 0 | S k' => pm_estimate v0 k' end.

Definition pm_stop (v0 : rvec) (tol : R) (k : nat) : Prop :=
  Rabs (pm_estimate v0 k - pm_previous v0 k) <= tol * Rabs (pm_previous v0 k).

End PowerMethod.

(** ** [mpi_auto_adaptation] *)

(** The members of [mpi_auto_adaptation] that [learn_metric] reads or
    writes. [draws] holds the gathered buffers of the [MPI_Iallgather]
    requests ([n_params_] x [num_chains_] each), as they are once the
    requests have completed; the request handles [reqs] themselves are not
    modelled. *)
Record auto_adaptation := mk_auto_adaptation {
  num_chains_ : Z;
  n_params_ : Z;
  window_size_ : Z;
  init_buffer_ : Z;
  num_iterations_ : Z;
  draw_req_counter_ : Z;
  draws_collected_counter_ : Z;
  last_qs_ : list rvec;
  draws : list rmat;
  Y_ : rmat;
  is_diagonal_ : bool }.

Definition with_Y (s : auto_adaptation) (Y : rmat) : auto_adaptation :=
  mk_auto_adaptation (num_chains_ s) (n_params_ s) (window_size_ s)
    (init_buffer_ s) (num_iterations_ s) (draw_req_counter_ s)
    (draws_collected_counter_ s) (last_qs_ s) (draws s) Y (is_diagonal_ s).

Definition with_counters (s : auto_adaptation) (req collected : Z)
  : auto_adaptation :=
  mk_auto_adaptation (num_chains_ s) (n_params_ s) (window_size_ s)
    (init_buffer_ s) (num_iterations_ s) req collected (last_qs_ s)
    (draws s) (Y_ s) (is_diagonal_ s).

Definition with_is_diagonal (s : auto_adaptation) (b : bool)
  : auto_adaptation :=
  mk_auto_adaptation (num_chains_ s) (n_params_ s) (window_size_ s)
    (init_buffer_ s) (num_iterations_ s) (draw_req_counter_ s)
    (draws_collected_counter_ s) (last_qs_ s) (draws s) (Y_ s) b.

(** [for (k = start; k < start + count; ++k) body(k)] over a state. *)
Fixpoint for_loop {S : Type} (count : nat) (k : Z) (body : Z -> S -> res S)
  (s : S) : res S :=
  match count with
  | O => inl s
  | S count' => let! s' := body k s in for_loop count' (k + 1)%Z body s'
  end.

(** One write of [collect_draws]:
    [Y_.block((draws_collected_counter_ + index) * num_chains_ + chain, 0,
    1, n_params_) = draws[index].col(chain).transpose()]. *)
Definition write_draw_row (index chain : Z) (s : auto_adaptation)
  : res auto_adaptation :=
  match nth_error (draws s) (Z.to_nat index) with
  | None => inr EigenAssertion
  | Some D =>
      let r := ((draws_collected_counter_ s + index) * num_chains_ s + chain)%Z in
      let Y := Y_ s in
      if ((0 <=? chain) && (chain <? nc D) && (0 <=? r) && (r + 1 <=? nr Y)
          && (n_params_ s <=? nc Y) && (nr D =? n_params_ s))%Z
      then inl (with_Y s (mk_rmat (nr Y) (nc Y)
                  (fun i j => if Nat.eqb i (Z.to_nat r)
                              then ent D j (Z.to_nat chain) else ent Y i j)))
      else inr EigenAssertion
  end.

(** [collect_draws]: every pending request eventually completes
    ([MPI_Testany] busy-poll); completed requests are handled in some order,
    each exactly once, and distinct requests write distinct rows of [Y_],
    so they are taken here in ascending order. Then
    [draws_collected_counter_ += draw_req_counter_] and [reset_req()]. *)
Definition collect_draws (s : auto_adaptation) : res auto_adaptation :=
  let! s1 := for_loop (Z.to_nat (draw_req_counter_ s)) 0
               (fun index s =>
                  for_loop (Z.to_nat (num_chains_ s)) 0
                    (fun chain s => write_draw_row index chain s) s) s in
  inl (with_counters s1 0 (draws_collected_counter_ s1 + draw_req_counter_ s1)).

(** [add_sample(q, curr_win_count)]: the [MPI_Iallgather] request posted
    in slot [draw_req_counter_] fills [draws[draw_req_counter_]];
    [gathered] is the buffer it holds once the request has completed (the
    [q]s of all chains). [draws] has one slot per request of a window;
    [draws[k]] for [k] past its end is undefined behaviour, [None] here.
    Then [draw_req_counter_++], [last_qs_.push_back(q)] and, when the deque
    holds more than 5 points, [last_qs_.pop_front()]. *)
Definition add_sample (q : rvec) (gathered : rmat) (s : auto_adaptation)
  : option auto_adaptation :=
  let k := draw_req_counter_ s in
  if ((0 <=? k) && (k <? Z.of_nat (length (draws s))))%Z then
    let qs := last_qs_ s ++ [q] in
    Some (mk_auto_adaptation (num_chains_ s) (n_params_ s) (window_size_ s)
            (init_buffer_ s) (num_iterations_ s) (k + 1)%Z
            (draws_collected_counter_ s)
            (if (5 <? length qs)%nat then tl qs else qs)
            (set_nth (Z.to_nat k) gathered (draws s)) (Y_ s) (is_diagonal_ s))
  else None.

(** Successive calls of [add_sample], one per [(q, gathered)] pair. *)
Fixpoint add_samples (samples : list (rvec * rmat)) (s : auto_adaptation)
  : option auto_adaptation :=
  match samples with
  | [] => Some s
  | (q, g) :: rest =>
      match add_sample q g s with
      | Some s' => add_samples rest s'
      | None => None
      end
  end.

(** [first_draw] and [num_draws] of [learn_metric]. *)
Definition first_draw (s : auto_adaptation) (win : Z) : Z :=
  (num_chains_ s * (Z.max (win - 1) 0 * window_size_ s
                    + (if 0 <? win then 1 else 0) * (window_size_ s - init_buffer_ s)))%Z.

Definition usable_draws (s : auto_adaptation) (win : Z) : Z :=
  Z.max (num_chains_ s * draws_collected_counter_ s - first_draw s win) 0.

(** The two passes of the loop [for (auto state : {"selection",
    "refinement"})]; the comparisons [state == "selection"] are taken to
    hold exactly on the first pass (identical string literals share
    storage). *)
Inductive pass := selection | refinement.

(** [dense] of a pass with [n = num_draws - Ntest]:
    [(n / (n + 5.0)) * cov_train + 1e-3 * (5.0 / (n + 5.0)) * Identity]. *)
Definition shrunk_dense (n : Z) (cov_train : rmat) : rmat :=
  radd (rscale (IZR n / (IZR n + 5)) cov_train)
       (rscale (1 / 1000 * (5 / (IZR n + 5)))
               (ridentity (nr cov_train) (nc cov_train))).

(** The part of one pass that computes [Ntest], [cov_train], [cov_test],
    [dense] and [diag]. [Ntest = int(0.2 * num_draws)] is [num_draws / 5]
    for the non-negative [num_draws]. *)
Definition pass_candidates (s : auto_adaptation) (fd nd : Z) (p : pass)
  : res (Z * rmat * rmat * rmat * rmat) :=
  let M := n_params_ s in
  let! (Ntest, cov_train, cov_test) :=
    match p with
    | selection =>
        let Ntest := (nd / 5)%Z in
        let Ntest := if (Ntest <? 5)%Z then 5%Z else Ntest in
        if (nd <? 10)%Z then inr RuntimeError
        else
          let! Ytrain := rblock (Y_ s) fd 0 (nd - Ntest) (n_params_ s) in
          let! Ytest := rblock (Y_ s) (fd + nd - Ntest) 0 Ntest (n_params_ s) in
          let! cov_train := covariance Ytrain in
          let! cov_test := covariance Ytest in
          inl (Ntest, cov_train, cov_test)
    | refinement =>
        let! Ytrain := rblock (Y_ s) fd 0 nd (n_params_ s) in
        let! cov_train := covariance Ytrain in
        inl (0%Z, cov_train, rzero M M)
    end in
  let dense := shrunk_dense (nd - Ntest) cov_train in
  let diag := diagonal_projection dense in
  inl (Ntest, cov_train, cov_test, dense, diag).

Section LearnMetric.
(** Collaborators of the selection pass: the Cholesky factor
    [dense.llt().matrixL()], and [internal::eigenvalue_scaled_covariance] /
    [internal::eigenvalue_scaled_hessian], whose power iterations start from
    [Eigen::VectorXd::Random] and whose Hessian products call the model's
    gradient (which may throw). *)
Variable llt_L : rmat -> rmat.
Variable eigenvalue_scaled_covariance : rmat -> rmat -> res R.
Variable eigenvalue_scaled_hessian : rmat -> rvec -> res R.

(** The selection decision: condition-number estimates [c_dense] and
    [c_diag] over [last_qs_], and [use_dense = c_dense < c_diag]. *)
Definition select_dense (dense diag cov_test : rmat) (qs : list rvec)
  : res bool :=
  let L_dense := llt_L dense in
  let L_diag := as_diagonal (fun i => sqrt (ent diag i i)) (Z.min (nr diag) (nc diag)) in
  let! e_dense := eigenvalue_scaled_covariance L_dense cov_test in
  let! e_diag := eigenvalue_scaled_covariance L_diag cov_test in
  let low_eigenvalue_dense := -1 / e_dense in
  let low_eigenvalue_diag := -1 / e_diag in
  let! (c_dense, c_diag) :=
    fold_left
      (fun acc q =>
         let! (c_dense, c_diag) := acc in
         let! high_dense := eigenvalue_scaled_hessian L_dense q in
         let! high_diag := eigenvalue_scaled_hessian L_diag q in
         inl (Rmax c_dense (sqrt (high_dense / low_eigenvalue_dense)),
              Rmax c_diag (sqrt (high_diag / low_eigenvalue_diag))))
      qs (inl (0, 0)) in
  inl (Rlt_bool c_dense c_diag).

(** The [try] block: the selection pass, then the refinement pass, which
    sets [covar] and [is_diagonal_]. *)
Definition learn_metric_passes (s : auto_adaptation) (fd nd : Z)
  : res (rmat * bool) :=
  let! (_, _, cov_test, dense, diag) := pass_candidates s fd nd selection in
  let! use_dense := select_dense dense diag cov_test (last_qs_ s) in
  let! (_, _, _, dense, diag) := pass_candidates s fd nd refinement in
  if use_dense then inl (dense, false) else inl (diag, true).

(** The [catch] block's metric:
    [((num_draws / (num_draws + 5.0)) * cov.diagonal()
      + 1e-3 * (5.0 / (num_draws + 5.0)) * Ones(M)).asDiagonal()]
    with [cov = Zero(M, M)]. *)
Definition fallback_metric (M nd : Z) : rmat :=
  as_diagonal (fun i => IZR nd / (IZR nd + 5) * ent (rzero M M) i i
                        + 1 / 1000 * (5 / (IZR nd + 5)) * 1) M.

(** [learn_metric(covar, win, curr_win_count, comm)]: returns the new
    state and the output [covar]. Every C++ exception of the [try] block
    is caught; an Eigen assertion is not. *)
Definition learn_metric (s : auto_adaptation) (win : Z)
  : res (auto_adaptation * rmat) :=
  let! s1 := collect_draws s in
  let fd := first_draw s1 win in
  let nd := usable_draws s1 win in
  let M := n_params_ s1 in
  match learn_metric_passes s1 fd nd with
  | inl (covar, diagonal) => inl (with_is_diagonal s1 diagonal, covar)
  | inr e =>
      if is_exception e then inl (with_is_diagonal s1 true, fallback_metric M nd)
      else inr e
  end.

End LearnMetric.

Close Scope R_scope.

(** ** Auxiliary notions for the further properties *)

(** The block a [min_max] index selects in [mat[min_max, min_max]]: its
    0-based first position, its length and, for the [k]-th position of the
    block, the position of the right-hand side it receives (the order is
    reversed for a descending index). *)
Definition mm_start (ix : index_min_max) : Z :=
  ((if positive_idx_ ix then min_ ix else max_ ix) - 1)%Z.
Definition mm_size (ix : index_min_max) : Z :=
  if positive_idx_ ix then max_ ix - (min_ ix - 1) else min_ ix - (max_ ix - 1).
Definition mm_source (ix : index_min_max) (k : nat) : nat :=
  if positive_idx_ ix then k else (Z.to_nat (mm_size ix) - S k)%nat.

(** A well-formed matrix: every row has [cols] entries. *)
Definition wf_mat {A : Type} (x : mat A) : Prop :=
  forall i r, nth_error (mrows x) i = Some r -> length r = Z.to_nat (mcols x).

(** Small integer matrices. *)
Definition m22 : mat Z := mk_mat 2 [[1; 2]; [3; 4]].
Definition m33 : mat Z := mk_mat 3 [[0; 0; 0]; [0; 0; 0]; [0; 0; 0]].

(** The last [n] elements of a list. *)
Definition lastn {B : Type} (n : nat) (l : list B) : list B :=
  skipn (length l - n) l.

Open Scope R_scope.


(** Everything [collect_draws] leaves alone: all members but [Y_], whose
    shape is kept. *)
Definition same_but_Y (s t : auto_adaptation) : Prop :=
  num_chains_ t = num_chains_ s /\ n_params_ t = n_params_ s
  /\ window_size_ t = window_size_ s /\ init_buffer_ t = init_buffer_ s
  /\ num_iterations_ t = num_iterations_ s
  /\ draw_req_counter_ t = draw_req_counter_ s
  /\ draws_collected_counter_ t = draws_collected_counter_ s
  /\ last_qs_ t = last_qs_ s /\ draws t = draws s /\ is_diagonal_ t = is_diagonal_ s
  /\ nr (Y_ t) = nr (Y_ s) /\ nc (Y_ t) = nc (Y_ s).

(** Small adaptation states: five stored points and two request slots. *)
Definition aa5 : auto_adaptation :=
  mk_auto_adaptation 1 1 10 0 10 0 0 [[1]; [2]; [3]; [4]; [5]]
    [rzero 1 1; rzero 1 1] (rzero 2 1) false.

(** One pending request of one chain, one parameter, written to row 1 of
    a three-row [Y_] whose row [i] holds [i]. *)
Definition aa_req : auto_adaptation :=
  mk_auto_adaptation 1 1 10 0 10 1 1 [] [mk_rmat 1 1 (fun _ _ => 7)]
    (mk_rmat 3 1 (fun i _ => INR i)) false.

Close Scope R_scope.

(** * Theorems *)

(** ** Indexed assignment *)

Section SetNth.
Context {A : Type}.

Lemma set_nth_length (k : nat) (a : A) (v : list A) :
  length (set_nth k a v) = length v.
Proof.
  revert k; induction v as [|b v IH]; intros [|k]; simpl; auto.
Qed.

Lemma set_nth_same (k : nat) (a : A) (v : list A) :
  (k < length v)%nat -> nth_error (set_nth k a v) k = Some a.
Proof.
  revert k; induction v as [|b v IH]; intros [|k] Hk; simpl in *; try lia; auto.
  apply IH; lia.
Qed.

Lemma set_nth_other (k j : nat) (a : A) (v : list A) :
  j <> k -> nth_error (set_nth k a v) j = nth_error v j.
Proof.
  revert k j; induction v as [|b v IH]; intros [|k] [|j] Hjk; simpl; auto;
    try congruence; apply IH; lia.
Qed.

Lemma size_set_nth (k : nat) (a : A) (v : list A) :
  size (set_nth k a v) = size v.
Proof. unfold size; now rewrite set_nth_length. Qed.

(** The target after writing [ys] at the 1-based positions [ps], one pair
    at a time. *)
Definition write_positions (ps : list Z) (ys : list A) (x : list A) : list A :=
  fold_left (fun x pa => set_nth (Z.to_nat (fst pa - 1)) (snd pa) x)
            (combine ps ys) x.

End SetNth.

Definition in_range (sz i : Z) : Prop := 1 <= i <= sz.

Section MultiLoop.
Context {A I : Type}.
Variable rvalue_index_size : I -> Z -> Z.
Variable rvalue_at : nat -> I -> Z.

Lemma assign_vec_multi_loop_out_of_range (idx : I) (ys : list A) :
  forall (n : nat) (x : list A) (pre : list Z) (p : Z) (post : list Z),
    map (fun k => rvalue_at k idx) (seq n (length ys)) = pre ++ p :: post ->
    Forall (in_range (size x)) pre ->
    ~ in_range (size x) p ->
    assign_vec_multi_loop rvalue_at idx n ys x
    = (inr OutOfRange, write_positions pre ys x).
Proof.
  induction ys as [|y0 ys IH]; intros n x pre p post Hmap Hpre Hp.
  - destruct pre; discriminate.
  - simpl in Hmap. destruct pre as [|q pre].
    + simpl in Hmap. injection Hmap as Hq _. subst p.
      simpl. unfold st_bind, st_get, check_range, in_range in *.
      destruct ((1 <=? rvalue_at n idx) && (rvalue_at n idx <=? size x))
        eqn:E; [|reflexivity].
      exfalso; apply Hp; apply andb_true_iff in E as [E1 E2]; lia.
    + simpl in Hmap. injection Hmap as Hq Hmap. subst q.
      inversion Hpre as [|? ? Hq Hpre']; subst.
      cbn [assign_vec_multi_loop].
      unfold st_bind at 1 2, st_get, check_range at 1.
      unfold in_range in Hq.
      replace ((1 <=? rvalue_at n idx) && (rvalue_at n idx <=? size x))
        with true by (symmetry; apply andb_true_iff; lia).
      unfold st_ret, st_modify at 1. unfold st_bind at 1.
      rewrite (IH (S n) _ pre p post Hmap); rewrite ?size_set_nth; auto.
Qed.

End MultiLoop.

(** C2: on [[1;2;3;4;5]], the ascending min-max index (2,4) assigned
    [[10;20;30]] gives [[1;10;20;30;5]], and the reversed min-max index
    with [min_ = 4], [max_ = 2] gives [[1;30;20;10;5]]. *)
Theorem vec_min_max_scenario :
  assign_vec_min_max {| min_ := 2; max_ := 4; positive_idx_ := true |}
    [10; 20; 30] [1; 2; 3; 4; 5] = (inl tt, [1; 10; 20; 30; 5])
  /\ assign_vec_min_max {| min_ := 4; max_ := 2; positive_idx_ := false |}
    [10; 20; 30] [1; 2; 3; 4; 5] = (inl tt, [1; 30; 20; 10; 5]).
Proof. split; reflexivity. Qed.

(** C1 (failing input): on [[1;2;3]] with the ascending min-max index
    (1,3), whose range has 3 positions, the size check compares against
    [max_ - 1 = 2]: a 3-element value is refused with a size mismatch and
    the target is untouched, while a 2-element value is accepted and only
    positions 1..2 are written. *)
Theorem vec_min_max_size_check_uses_max_minus_one :
  assign_vec_min_max {| min_ := 1; max_ := 3; positive_idx_ := true |}
    [7; 8; 9] [1; 2; 3] = (inr SizeMismatch, [1; 2; 3])
  /\ assign_vec_min_max {| min_ := 1; max_ := 3; positive_idx_ := true |}
    [7; 8] [1; 2; 3] = (inl tt, [7; 8; 3]).
Proof. split; reflexivity. Qed.

Section IndexingClaims.
Context {A I : Type}.

(** C9: a single-index assignment at an in-range position [i] succeeds;
    reading position [i] back gives the written value, the length is kept
    and every other position is unchanged. *)
Theorem vec_uni_assign_read_back (x : list A) (i : Z) (y : A) :
  1 <= i <= size x ->
  fst (assign_vec_uni {| n_ := i |} y x) = inl tt
  /\ length (snd (assign_vec_uni {| n_ := i |} y x)) = length x
  /\ nth_error (snd (assign_vec_uni {| n_ := i |} y x)) (Z.to_nat (i - 1))
     = Some y
  /\ (forall j, j <> Z.to_nat (i - 1) ->
        nth_error (snd (assign_vec_uni {| n_ := i |} y x)) j = nth_error x j).
Proof.
  intros Hi.
  unfold assign_vec_uni, st_bind, st_get, check_range; simpl.
  replace ((1 <=? i) && (i <=? size x)) with true
    by (symmetry; apply andb_true_iff; lia).
  unfold st_ret, st_modify; simpl.
  unfold size in Hi.
  split; [reflexivity|]. split; [apply set_nth_length|]. split.
  - apply set_nth_same; lia.
  - intros j Hj; now apply set_nth_other.
Qed.

Variable rvalue_index_size : I -> Z -> Z.
Variable rvalue_at : nat -> I -> Z.

(** C5: a multiple-index assignment on a vector whose resolved index size
    differs from the value's length fails with a size mismatch before any
    write: the target is unchanged. *)
Theorem vec_multi_size_mismatch_no_write (idx : I) (y x : list A) :
  rvalue_index_size idx (size x) <> size y ->
  assign_vec_multi rvalue_index_size rvalue_at idx y x = (inr SizeMismatch, x).
Proof.
  intros H.
  unfold assign_vec_multi, st_bind, st_get, check_size_match.
  now rewrite (proj2 (Z.eqb_neq _ _) H).
Qed.

(** C4 (amended): an out-of-range single index raises [OutOfRange] and
    leaves the vector unchanged; for a multiple index whose size matches
    the value, the first out-of-range resolved position raises
    [OutOfRange] after the positions before it have been written. *)
Theorem vec_out_of_range_assign :
  (forall (x : list A) (i : Z) (y : A),
      ~ in_range (size x) i ->
      assign_vec_uni {| n_ := i |} y x = (inr OutOfRange, x))
  /\ (forall (idx : I) (y x : list A) (pre : list Z) (p : Z) (post : list Z),
        rvalue_index_size idx (size x) = size y ->
        map (fun k => rvalue_at k idx) (seq 0 (length y)) = pre ++ p :: post ->
        Forall (in_range (size x)) pre ->
        ~ in_range (size x) p ->
        assign_vec_multi rvalue_index_size rvalue_at idx y x
        = (inr OutOfRange, write_positions pre y x)).
Proof.
  split.
  - intros x i y Hi.
    unfold assign_vec_uni, st_bind, st_get, check_range; simpl.
    destruct ((1 <=? i) && (i <=? size x)) eqn:E; [|reflexivity].
    exfalso; apply Hi; apply andb_true_iff in E as [E1 E2]; unfold in_range; lia.
  - intros idx y x pre p post Hsz Hmap Hpre Hp.
    unfold assign_vec_multi, st_bind at 1, st_get, check_size_match.
    rewrite Hsz, Z.eqb_refl. unfold st_bind, st_ret.
    now apply (assign_vec_multi_loop_out_of_range rvalue_at idx y 0 x pre p post).
Qed.

(** C10: [mat[uni,] = rowvec] validates only the column count: with a
    matching row vector and a row index outside [[1, rows]], no
    [OutOfRange] is raised (the write reaches Eigen's own assertion),
    whereas [mat[uni] = rowvec] rejects the same index with [OutOfRange]. *)
Theorem mat_uni_omni_no_row_range_check (x : mat A) (i : Z) (y : list A) :
  size y = cols x ->
  ~ in_range (rows x) i ->
  assign_mat_uni_omni {| n_ := i |} y x = (inr EigenAssertion, x)
  /\ assign_mat_uni {| n_ := i |} y x = (inr OutOfRange, x).
Proof.
  intros Hsz Hi. unfold in_range in Hi.
  assert (E1 : (0 <=? i - 1) && (i - 1 <? rows x) = false).
  { apply andb_false_iff.
    destruct (Z.le_gt_cases 1 i); [right; apply Z.ltb_ge|left; apply Z.leb_gt]; lia. }
  assert (E2 : (1 <=? i) && (i <=? rows x) = false).
  { apply andb_false_iff.
    destruct (Z.le_gt_cases 1 i); [right; apply Z.leb_gt|left; apply Z.leb_gt]; lia. }
  cbv beta iota delta [assign_mat_uni_omni assign_mat_uni st_bind st_get
    check_size_match check_range row_assign st_ret st_raise st_modify n_].
  rewrite Hsz, Z.eqb_refl, E1, E2. now split.
Qed.

End IndexingClaims.

(** Witness for C9: position 2 of [[1;2;3]]. *)
Lemma vec_uni_assign_read_back_witness :
  1 <= 2 <= size [1; 2; 3]
  /\ nth_error (snd (assign_vec_uni {| n_ := 2 |} 9 [1; 2; 3])) 1 = Some 9.
Proof.
  split; [vm_compute; split; discriminate|].
  apply (@vec_uni_assign_read_back Z [1; 2; 3] 2 9).
  vm_compute; split; discriminate.
Defined.

(** Witness for C5: two positions for a three-element value. *)
Lemma vec_multi_size_mismatch_no_write_witness :
  rvalue_index_size_multi {| ns_ := [1; 2] |} (size [1; 2; 3]) <> size [7; 8; 9]
  /\ assign_vec_multi rvalue_index_size_multi rvalue_at_multi
       {| ns_ := [1; 2] |} [7; 8; 9] [1; 2; 3] = (inr SizeMismatch, [1; 2; 3]).
Proof.
  split; [vm_compute; discriminate|].
  apply vec_multi_size_mismatch_no_write; vm_compute; discriminate.
Defined.

(** Counterexample for C4: the multiple index [[1;5]] on [[1;2;3]] with the
    value [[7;8]] raises [OutOfRange] at position 5, but position 1 has
    already been overwritten. *)
Lemma vec_multi_out_of_range_partial_write :
  assign_vec_multi rvalue_index_size_multi rvalue_at_multi
    {| ns_ := [1; 5] |} [7; 8] [1; 2; 3] = (inr OutOfRange, [7; 2; 3])
  /\ [7; 2; 3] <> [1; 2; 3].
Proof. split; [reflexivity|discriminate]. Qed.

(** Witness for C4: index 4 on [[1;2;3]], and the multiple index [[1;5]]. *)
Lemma vec_out_of_range_assign_witness :
  assign_vec_uni {| n_ := 4 |} 9 [1; 2; 3] = (inr OutOfRange, [1; 2; 3])
  /\ assign_vec_multi rvalue_index_size_multi rvalue_at_multi
       {| ns_ := [1; 5] |} [7; 8] [1; 2; 3]
     = (inr OutOfRange, write_positions [1] [7; 8] [1; 2; 3]).
Proof.
  split.
  - apply (proj1 (@vec_out_of_range_assign Z index_multi
                    rvalue_index_size_multi rvalue_at_multi)).
    unfold in_range; vm_compute; intros [_ H]; apply H; reflexivity.
  - apply (proj2 (@vec_out_of_range_assign Z index_multi
                    rvalue_index_size_multi rvalue_at_multi)
             {| ns_ := [1; 5] |} [7; 8] [1; 2; 3] [1] 5 []).
    + reflexivity.
    + reflexivity.
    + constructor; [unfold in_range; vm_compute; split; discriminate|constructor].
    + unfold in_range; vm_compute; intros [_ H]; apply H; reflexivity.
Defined.

(** Witness for C10: row 3 of a 2x2 matrix. *)
Lemma mat_uni_omni_no_row_range_check_witness :
  assign_mat_uni_omni {| n_ := 3 |} [5; 6] (mk_mat 2 [[1; 2]; [3; 4]])
  = (inr EigenAssertion, mk_mat 2 [[1; 2]; [3; 4]]).
Proof.
  apply (@mat_uni_omni_no_row_range_check Z (mk_mat 2 [[1; 2]; [3; 4]]) 3 [5; 6]).
  - reflexivity.
  - unfold in_range; vm_compute; intros [_ H]; apply H; reflexivity.
Defined.

(** ** Further assignment overloads *)

(** Outcomes of the two checks. *)
Lemma check_range_ok {S} (s : S) (max i : Z) :
  in_range max i -> check_range max i s = (inl tt, s).
Proof.
  unfold check_range, in_range; intros H.
  replace ((1 <=? i) && (i <=? max)) with true by (symmetry; apply andb_true_iff; lia).
  reflexivity.
Qed.

Lemma check_range_bad {S} (s : S) (max i : Z) :
  ~ in_range max i -> check_range max i s = (inr OutOfRange, s).
Proof.
  unfold check_range, in_range; intros H.
  destruct ((1 <=? i) && (i <=? max)) eqn:E; [|reflexivity].
  apply andb_true_iff in E; exfalso; apply H; lia.
Qed.

Lemma check_size_match_ok {S} (s : S) (i j : Z) :
  i = j -> check_size_match i j s = (inl tt, s).
Proof. intros ->. unfold check_size_match. now rewrite Z.eqb_refl. Qed.

Lemma check_size_match_bad {S} (s : S) (i j : Z) :
  i <> j -> check_size_match i j s = (inr SizeMismatch, s).
Proof. intros H. unfold check_size_match. now rewrite (proj2 (Z.eqb_neq _ _) H). Qed.

Lemma nth_error_combine {B C : Type} (l : list B) (l' : list C) (n : nat) :
  nth_error (combine l l') n =
  match nth_error l n, nth_error l' n with
  | Some a, Some b => Some (a, b)
  | _, _ => None
  end.
Proof.
  revert l' n; induction l as [|a l IH]; intros [|b l'] [|n]; simpl; auto.
  destruct (nth_error l n); reflexivity.
Qed.

Lemma nth_error_Some_lt {B : Type} (l : list B) (n : nat) :
  (n < length l)%nat -> exists b, nth_error l n = Some b.
Proof.
  intros H. destruct (nth_error l n) eqn:E; [eauto|].
  apply nth_error_None in E; lia.
Qed.


Section IndexingExtras.
Context {A : Type}.


Lemma mat_set_rows (i j : nat) (a : A) (x : mat A) :
  mrows (mat_set i j a x) = set_nth i (set_nth j a (nth i (mrows x) [])) (mrows x).
Proof. reflexivity. Qed.

Lemma mat_get_set (i j : nat) (a : A) (x : mat A) (i' j' : nat) :
  wf_mat x -> (i < length (mrows x))%nat -> (j < Z.to_nat (mcols x))%nat ->
  mat_get (mat_set i j a x) i' j'
  = if Nat.eqb i' i && Nat.eqb j' j then Some a else mat_get x i' j'.
Proof.
  intros Hwf Hi Hj. unfold mat_get. rewrite mat_set_rows.
  destruct (Nat.eqb_spec i' i) as [->|Hne].
  - rewrite set_nth_same by exact Hi.
    destruct (nth_error_Some_lt _ _ Hi) as [r Hr]. rewrite Hr.
    rewrite (nth_error_nth _ _ _ Hr).
    pose proof (Hwf _ _ Hr) as Hlen.
    destruct (Nat.eqb_spec j' j) as [->|Hne']; simpl.
    + apply set_nth_same; lia.
    + apply set_nth_other; exact Hne'.
  - simpl. rewrite set_nth_other by exact Hne. reflexivity.
Qed.

Lemma set_nth_wf (k : nat) (r : list A) (x : mat A) :
  wf_mat x -> length r = Z.to_nat (mcols x) ->
  wf_mat (mk_mat (mcols x) (set_nth k r (mrows x))).
Proof.
  intros Hwf Hr i r' H. simpl in *.
  destruct (Nat.eq_dec i k) as [->|Hne].
  - destruct (Nat.lt_ge_cases k (length (mrows x))) as [Hk|Hk].
    + rewrite set_nth_same in H by exact Hk. congruence.
    + exfalso. assert (Hn : nth_error (set_nth k r (mrows x)) k = None)
        by (apply nth_error_None; rewrite set_nth_length; lia). congruence.
  - rewrite set_nth_other in H by exact Hne. eapply Hwf; eauto.
Qed.


Lemma mat_uni_uni_bounds (x : mat A) (m n : index_uni) :
  in_range (rows x) (n_ m) -> in_range (cols x) (n_ n) ->
  (Z.to_nat (n_ m - 1) < length (mrows x))%nat
  /\ (Z.to_nat (n_ n - 1) < Z.to_nat (mcols x))%nat.
Proof. unfold in_range, rows, cols; intros; split; lia. Qed.

(** X1: [mat[uni, uni] = scalar] with both positions in range writes [y] at
    [(m - 1, n - 1)] and nothing else; the shape is kept. *)
Theorem assign_mat_uni_uni_read_back (x : mat A) (m n : index_uni) (y : A) :
  wf_mat x -> in_range (rows x) (n_ m) -> in_range (cols x) (n_ n) ->
  exists x', assign_mat_uni_uni m n y x = (inl tt, x')
    /\ rows x' = rows x /\ cols x' = cols x /\ wf_mat x'
    /\ forall i j, mat_get x' i j
         = if Nat.eqb i (Z.to_nat (n_ m - 1)) && Nat.eqb j (Z.to_nat (n_ n - 1))
           then Some y else mat_get x i j.
Proof.
  intros Hwf Hm Hn.
  destruct (mat_uni_uni_bounds x m n Hm Hn) as [Hi Hj].
  exists (mat_set (Z.to_nat (n_ m - 1)) (Z.to_nat (n_ n - 1)) y x).
  unfold assign_mat_uni_uni; cbv [st_bind st_get].
  rewrite (check_range_ok x _ _ Hm); cbv beta iota.
  rewrite (check_range_ok x _ _ Hn); cbv beta iota.
  split; [reflexivity|].
  split; [unfold rows; rewrite mat_set_rows, set_nth_length; reflexivity|].
  split; [reflexivity|].
  split.
  - apply set_nth_wf; [exact Hwf|].
    rewrite set_nth_length.
    destruct (nth_error_Some_lt _ _ Hi) as [r Hr].
    rewrite (nth_error_nth _ _ _ Hr). exact (Hwf _ _ Hr).
  - intros i j. apply mat_get_set; assumption.
Qed.

(** X2: [mat[uni, uni] = scalar] with a row or a column position out of
    range throws [std::out_of_range] and leaves the matrix unchanged. *)
Theorem assign_mat_uni_uni_out_of_range (x : mat A) (m n : index_uni) (y : A) :
  ~ (in_range (rows x) (n_ m) /\ in_range (cols x) (n_ n)) ->
  assign_mat_uni_uni m n y x = (inr OutOfRange, x).
Proof.
  intros H. unfold assign_mat_uni_uni; cbv [st_bind st_get].
  destruct (Z_le_dec 1 (n_ m)), (Z_le_dec (n_ m) (rows x)).
  2-4: rewrite (check_range_bad x _ _) by (unfold in_range; lia); reflexivity.
  rewrite (check_range_ok x _ _) by (unfold in_range; lia); cbv beta iota.
  rewrite (check_range_bad x _ _) by (unfold in_range in *; tauto).
  reflexivity.
Qed.

(** X3: [mat[uni] = rowvec] with a row vector of [cols] entries and an
    in-range row replaces that row by [y] and keeps the other rows. *)
Theorem assign_mat_uni_read_back (x : mat A) (idx : index_uni) (y : list A) :
  size y = cols x -> in_range (rows x) (n_ idx) ->
  exists x', assign_mat_uni idx y x = (inl tt, x')
    /\ mcols x' = mcols x /\ rows x' = rows x
    /\ nth_error (mrows x') (Z.to_nat (n_ idx - 1)) = Some y
    /\ forall i, i <> Z.to_nat (n_ idx - 1) ->
                 nth_error (mrows x') i = nth_error (mrows x) i.
Proof.
  intros Hs Hr.
  exists (mk_mat (mcols x) (set_nth (Z.to_nat (n_ idx - 1)) y (mrows x))).
  unfold assign_mat_uni; cbv [st_bind st_get].
  rewrite (check_size_match_ok x _ _ (eq_sym Hs)); cbv beta iota.
  rewrite (check_range_ok x _ _ Hr); cbv beta iota.
  unfold row_assign; cbv [st_bind st_get].
  replace ((0 <=? n_ idx - 1) && (n_ idx - 1 <? rows x) && (size y =? cols x))
    with true by (symmetry; unfold in_range in Hr;
                  repeat rewrite andb_true_iff; rewrite Z.leb_le, Z.ltb_lt, Z.eqb_eq; lia).
  unfold st_modify. split; [reflexivity|].
  split; [reflexivity|].
  split; [unfold rows; simpl; rewrite set_nth_length; reflexivity|].
  split.
  - simpl. apply set_nth_same. unfold in_range, rows in Hr. lia.
  - intros i Hi. simpl. apply set_nth_other; exact Hi.
Qed.

(** X4: [mat[uni] = rowvec] checks the sizes before the row: a row vector
    whose length is not [cols] is refused with [std::invalid_argument]
    whatever the row, and a row out of range with [std::out_of_range];
    either way the matrix is unchanged. *)
Theorem assign_mat_uni_errors (x : mat A) (idx : index_uni) (y : list A) :
  (cols x <> size y -> assign_mat_uni idx y x = (inr SizeMismatch, x))
  /\ (cols x = size y -> ~ in_range (rows x) (n_ idx) ->
      assign_mat_uni idx y x = (inr OutOfRange, x)).
Proof.
  split.
  - intros H. unfold assign_mat_uni; cbv [st_bind st_get].
    now rewrite (check_size_match_bad x _ _ H).
  - intros H Hr. unfold assign_mat_uni; cbv [st_bind st_get].
    rewrite (check_size_match_ok x _ _ H); cbv beta iota.
    now rewrite (check_range_bad x _ _ Hr).
Qed.

(** X5: [mat[, uni] = colvec] with a vector of [rows] entries and an
    in-range column writes entry [i] of [y] at [(i, n - 1)] for every row
    [i] and changes nothing else; the shape is kept. *)
Theorem assign_mat_omni_uni_read_back (x : mat A) (idx : index_uni) (y : list A) :
  wf_mat x -> size y = rows x -> in_range (cols x) (n_ idx) ->
  exists x', assign_mat_omni_uni idx y x = (inl tt, x')
    /\ mcols x' = mcols x /\ rows x' = rows x /\ wf_mat x'
    /\ forall i j, mat_get x' i j
         = if Nat.eqb j (Z.to_nat (n_ idx - 1)) then nth_error y i
           else mat_get x i j.
Proof.
  intros Hwf Hs Hc.
  set (k := Z.to_nat (n_ idx - 1)).
  assert (Hk : (k < Z.to_nat (mcols x))%nat)
    by (unfold k, in_range, cols in *; lia).
  assert (Hlen : length y = length (mrows x)) by (unfold size, rows in Hs; lia).
  set (g := fun p : list A * A => set_nth k (snd p) (fst p)).
  exists (mk_mat (mcols x) (map g (combine (mrows x) y))).
  unfold assign_mat_omni_uni; cbv [st_bind st_get].
  rewrite (check_size_match_ok x _ _ (eq_sym Hs)); cbv beta iota.
  rewrite (check_range_ok x _ _ Hc); cbv beta iota.
  unfold col_assign; cbv [st_bind st_get].
  replace ((0 <=? n_ idx - 1) && (n_ idx - 1 <? cols x) && (size y =? rows x))
    with true by (symmetry; unfold in_range in Hc;
                  repeat rewrite andb_true_iff; rewrite Z.leb_le, Z.ltb_lt, Z.eqb_eq; lia).
  unfold st_modify. split; [reflexivity|].
  assert (Hrow : forall i, nth_error (map g (combine (mrows x) y)) i
            = match nth_error (mrows x) i with
              | Some r => option_map (fun b => set_nth k b r) (nth_error y i)
              | None => None
              end).
  { intros i. rewrite nth_error_map, nth_error_combine.
    destruct (nth_error (mrows x) i) as [r|] eqn:Er;
      destruct (nth_error y i) as [b|] eqn:Eb; reflexivity. }
  split; [reflexivity|].
  split; [unfold rows; simpl; rewrite length_map, length_combine; lia|].
  split.
  - intros i r' H. simpl in H. rewrite Hrow in H.
    destruct (nth_error (mrows x) i) as [r|] eqn:Er; [|discriminate].
    destruct (nth_error y i) as [b|]; [|discriminate].
    simpl in H. injection H as <-. rewrite set_nth_length. exact (Hwf _ _ Er).
  - intros i j. unfold mat_get at 1. simpl. rewrite Hrow. unfold mat_get.
    destruct (nth_error (mrows x) i) as [r|] eqn:Er;
      destruct (nth_error y i) as [b|] eqn:Eb.
    + simpl. pose proof (Hwf _ _ Er) as Hr.
      destruct (Nat.eqb_spec j k) as [->|Hne].
      * apply set_nth_same; lia.
      * apply set_nth_other; exact Hne.
    + exfalso. apply nth_error_None in Eb.
      assert (i < length (mrows x))%nat by (apply nth_error_Some; congruence). lia.
    + exfalso. apply nth_error_None in Er.
      assert (i < length y)%nat by (apply nth_error_Some; congruence). lia.
    + destruct (Nat.eqb j k); reflexivity.
Qed.


Lemma nth_error_block_rows {B D : Type} (X : list B) (Yr : list D)
  (g : B * D -> B) (R H : nat) (d : D) (i : nat) :
  (R + H <= length X)%nat -> length Yr = H ->
  nth_error (firstn R X ++ map g (combine (firstn H (skipn R X)) Yr)
             ++ skipn (R + H) X) i
  = if (R <=? i)%nat && (i <? R + H)%nat
    then option_map (fun b => g (b, nth (i - R) Yr d)) (nth_error X i)
    else nth_error X i.
Proof.
  intros HX HY.
  assert (L1 : length (firstn R X) = R) by (apply firstn_length_le; lia).
  assert (L2 : length (map g (combine (firstn H (skipn R X)) Yr)) = H).
  { rewrite length_map, length_combine, firstn_length_le; [lia|].
    rewrite length_skipn; lia. }
  destruct (Nat.leb_spec R i) as [Hi|Hi].
  - rewrite nth_error_app2 by lia. rewrite L1.
    destruct (Nat.ltb_spec i (R + H)) as [Hi2|Hi2]; simpl.
    + rewrite nth_error_app1 by lia.
      rewrite nth_error_map, nth_error_combine, nth_error_firstn.
      rewrite (proj2 (Nat.ltb_lt (i - R) H)) by lia.
      rewrite nth_error_skipn. replace (R + (i - R))%nat with i by lia.
      destruct (nth_error X i); [|reflexivity].
      rewrite (nth_error_nth' Yr d) by lia. reflexivity.
    + rewrite nth_error_app2 by lia. rewrite L2, nth_error_skipn.
      f_equal; lia.
  - rewrite nth_error_app1 by lia. rewrite nth_error_firstn.
    rewrite (proj2 (Nat.ltb_lt _ _) Hi). reflexivity.
Qed.

Lemma nth_error_block_row {B : Type} (row yr : list B) (C W j : nat) :
  (C + W <= length row)%nat -> length yr = W ->
  nth_error (firstn C row ++ yr ++ skipn (C + W) row) j
  = if (C <=? j)%nat && (j <? C + W)%nat then nth_error yr (j - C)
    else nth_error row j.
Proof.
  intros Hr Hy.
  assert (L1 : length (firstn C row) = C) by (apply firstn_length_le; lia).
  destruct (Nat.leb_spec C j) as [Hj|Hj].
  - rewrite nth_error_app2 by lia. rewrite L1.
    destruct (Nat.ltb_spec j (C + W)) as [Hj2|Hj2]; simpl.
    + rewrite nth_error_app1 by lia. reflexivity.
    + rewrite nth_error_app2 by lia. rewrite nth_error_skipn. f_equal; lia.
  - rewrite nth_error_app1 by lia. rewrite nth_error_firstn.
    rewrite (proj2 (Nat.ltb_lt _ _) Hj). reflexivity.
Qed.

Lemma block_assign_spec (x y : mat A) (r c h w : Z) :
  wf_mat x -> wf_mat y -> 0 <= r -> 0 <= c -> 0 <= h -> 0 <= w ->
  r + h <= rows x -> c + w <= cols x -> rows y = h -> cols y = w ->
  exists x', block_assign r c h w y x = (inl tt, x')
    /\ mcols x' = mcols x /\ rows x' = rows x /\ wf_mat x'
    /\ forall i j, mat_get x' i j
       = if (Z.to_nat r <=? i)%nat && (i <? Z.to_nat r + Z.to_nat h)%nat
            && (Z.to_nat c <=? j)%nat && (j <? Z.to_nat c + Z.to_nat w)%nat
         then mat_get y (i - Z.to_nat r) (j - Z.to_nat c)
         else mat_get x i j.
Proof.
  intros Hwx Hwy Hr Hc Hh Hw Hrh Hcw Hry Hcy.
  unfold block_assign; cbv [st_bind st_get].
  replace ((0 <=? r) && (0 <=? c) && (0 <=? h) && (0 <=? w) && (r + h <=? rows x)
           && (c + w <=? cols x) && (rows y =? h) && (cols y =? w))
    with true by (symmetry; repeat rewrite andb_true_iff;
                  rewrite ?Z.leb_le, ?Z.eqb_eq; lia).
  unfold st_modify. eexists; split; [reflexivity|].
  rewrite (Z2Nat.inj_add r h), (Z2Nat.inj_add c w) by lia.
  set (R := Z.to_nat r); set (H := Z.to_nat h);
  set (C := Z.to_nat c); set (W := Z.to_nat w).
  set (g := fun p : list A * list A => firstn C (fst p) ++ snd p ++ skipn (C + W) (fst p)).
  assert (HX : (R + H <= length (mrows x))%nat) by (unfold R, H, rows in *; lia).
  assert (HY : length (mrows y) = H) by (unfold H, rows in *; lia).
  assert (Hrow : forall i row, nth_error (mrows x) i = Some row ->
                 (C + W <= length row)%nat /\ length row = Z.to_nat (mcols x)).
  { intros i row E. rewrite (Hwx _ _ E). unfold C, W, cols in *; lia. }
  assert (Hyrow : forall k, (k < H)%nat -> length (nth k (mrows y) []) = W).
  { intros k Hk. destruct (nth_error_Some_lt (mrows y) k) as [yr E]; [lia|].
    rewrite (nth_error_nth _ _ _ E). rewrite (Hwy _ _ E). unfold W, cols in *; lia. }
  split; [reflexivity|].
  split.
  { unfold rows; simpl. rewrite !length_app, length_map, length_combine,
      !length_firstn, !length_skipn. lia. }
  split.
  - intros i row' E. simpl in E. rewrite (nth_error_block_rows _ _ _ _ _ [] _ HX HY) in E.
    destruct ((R <=? i)%nat && (i <? R + H)%nat) eqn:B.
    + destruct (nth_error (mrows x) i) as [row|] eqn:Ex; [|discriminate].
      simpl in E. injection E as <-. unfold g; simpl.
      destruct (Hrow _ _ Ex) as [H1 H2].
      apply andb_true_iff in B as [B1 B2]. apply Nat.ltb_lt in B2. apply Nat.leb_le in B1.
      rewrite !length_app, length_firstn, length_skipn, Hyrow by lia. simpl. lia.
    + exact (Hwx _ _ E).
  - intros i j. unfold mat_get at 1; simpl.
    rewrite (nth_error_block_rows _ _ _ _ _ [] _ HX HY).
    destruct (Nat.leb_spec R i) as [Hi|Hi]; destruct (Nat.ltb_spec i (R + H)) as [Hi2|Hi2];
      simpl; try reflexivity.
    destruct (nth_error (mrows x) i) as [row|] eqn:Ex.
    + simpl. destruct (Hrow _ _ Ex) as [H1 H2]. unfold g; simpl.
      rewrite (nth_error_block_row _ _ _ _ _ H1 (Hyrow (i - R)%nat ltac:(lia))).
      unfold mat_get. rewrite Ex.
      rewrite (nth_error_nth' (mrows y) []) by lia. reflexivity.
    + exfalso. apply nth_error_None in Ex. lia.
Qed.

Lemma mat_rev_rows_get (y : mat A) (i j : nat) :
  (i < length (mrows y))%nat ->
  mat_get (mat_rev_rows y) i j = mat_get y (length (mrows y) - S i) j.
Proof.
  intros H. unfold mat_get, mat_rev_rows; simpl. rewrite nth_error_rev.
  rewrite (proj2 (Nat.ltb_lt _ _) H). reflexivity.
Qed.

Lemma mat_rev_cols_get (y : mat A) (i j : nat) :
  wf_mat y -> (j < Z.to_nat (mcols y))%nat ->
  mat_get (mat_rev_cols y) i j = mat_get y i (Z.to_nat (mcols y) - S j).
Proof.
  intros Hwf H. unfold mat_get, mat_rev_cols; simpl. rewrite nth_error_map.
  destruct (nth_error (mrows y) i) as [r|] eqn:E; simpl; [|reflexivity].
  rewrite nth_error_rev, (Hwf _ _ E), (proj2 (Nat.ltb_lt _ _) H). reflexivity.
Qed.

Lemma mat_rev_rows_wf (y : mat A) : wf_mat y -> wf_mat (mat_rev_rows y).
Proof.
  intros Hwf i r E. unfold mat_rev_rows in *; simpl in *. rewrite nth_error_rev in E.
  destruct (i <? length (mrows y))%nat; [exact (Hwf _ _ E)|discriminate].
Qed.

Lemma mat_rev_cols_wf (y : mat A) : wf_mat y -> wf_mat (mat_rev_cols y).
Proof.
  intros Hwf i r E. unfold mat_rev_cols in *; simpl in *. rewrite nth_error_map in E.
  destruct (nth_error (mrows y) i) as [r0|] eqn:E0; [|discriminate].
  simpl in E. injection E as <-. rewrite length_rev. exact (Hwf _ _ E0).
Qed.


Lemma rows_rev_rows (y : mat A) : rows (mat_rev_rows y) = rows y.
Proof. unfold rows, mat_rev_rows; simpl; now rewrite length_rev. Qed.

Lemma rows_rev_cols (y : mat A) : rows (mat_rev_cols y) = rows y.
Proof. unfold rows, mat_rev_cols; simpl; now rewrite length_map. Qed.

(** X6: [mat[min_max, min_max] = mat], in each of its four orientations,
    with a right-hand side of the selected shape and a block inside the
    matrix: entry [(i, j)] of the block receives entry
    [(mm_source ri (i - r0), mm_source ci (j - c0))] of [y] (the order is
    reversed along a descending index); every entry outside the block is
    unchanged, and so is the shape. *)
Theorem assign_mat_min_max2_read_back (ri ci : index_min_max) (y x : mat A) :
  wf_mat x -> wf_mat y -> rows y = mm_size ri -> cols y = mm_size ci ->
  0 <= cols y -> 0 <= mm_start ri -> mm_start ri + mm_size ri <= rows x ->
  0 <= mm_start ci -> mm_start ci + mm_size ci <= cols x ->
  exists x', assign_mat_min_max2 ri ci y x = (inl tt, x')
    /\ mcols x' = mcols x /\ rows x' = rows x /\ wf_mat x'
    /\ forall i j, mat_get x' i j
       = if (Z.to_nat (mm_start ri) <=? i)%nat
            && (i <? Z.to_nat (mm_start ri) + Z.to_nat (mm_size ri))%nat
            && (Z.to_nat (mm_start ci) <=? j)%nat
            && (j <? Z.to_nat (mm_start ci) + Z.to_nat (mm_size ci))%nat
         then mat_get y (mm_source ri (i - Z.to_nat (mm_start ri)))
                        (mm_source ci (j - Z.to_nat (mm_start ci)))
         else mat_get x i j.
Proof.
  intros Hwx Hwy Hry Hcy Hc0 Hr1 Hr2 Hc1 Hc2.
  assert (Hr0 : 0 <= rows y) by (unfold rows; lia).
  assert (Hlen : length (mrows y) = Z.to_nat (mm_size ri)) by (unfold rows in Hry; lia).
  assert (Hcol : Z.to_nat (mcols y) = Z.to_nat (mm_size ci)) by (unfold cols in Hcy; lia).
  unfold mm_source; unfold mm_start, mm_size in *.
  unfold assign_mat_min_max2; cbv [st_bind st_get].
  destruct (positive_idx_ ri), (positive_idx_ ci);
    rewrite (check_size_match_ok x _ _ (eq_sym Hry)); cbv beta iota;
    rewrite (check_size_match_ok x _ _ (eq_sym Hcy)); cbv beta iota.
  - pose proof (fun Hh Hw => block_assign_spec x y _ _ _ _ Hwx Hwy Hr1 Hc1
                  Hh Hw Hr2 Hc2 Hry Hcy) as HB.
    destruct (HB ltac:(lia) ltac:(lia)) as (x' & E & H1 & H2 & H3 & H4).
    exists x'. repeat split; auto.
  - pose proof (fun Hh Hw => block_assign_spec x (mat_rev_cols y) _ _ _ _ Hwx
                  (mat_rev_cols_wf y Hwy) Hr1 Hc1 Hh Hw Hr2 Hc2
                  (eq_trans (rows_rev_cols y) Hry) Hcy) as HB.
    destruct (HB ltac:(lia) ltac:(lia)) as (x' & E & H1 & H2 & H3 & H4).
    exists x'. repeat split; auto. intros i j. rewrite H4.
    destruct (_ && _ && _ && _) eqn:B; [|reflexivity].
    repeat rewrite andb_true_iff in B. rewrite ?Nat.leb_le, ?Nat.ltb_lt in B.
    rewrite mat_rev_cols_get by (auto; lia). now rewrite Hcol.
  - pose proof (fun Hh Hw => block_assign_spec x (mat_rev_rows y) _ _ _ _ Hwx
                  (mat_rev_rows_wf y Hwy) Hr1 Hc1 Hh Hw Hr2 Hc2
                  (eq_trans (rows_rev_rows y) Hry) Hcy) as HB.
    destruct (HB ltac:(lia) ltac:(lia)) as (x' & E & H1 & H2 & H3 & H4).
    exists x'. repeat split; auto. intros i j. rewrite H4.
    destruct (_ && _ && _ && _) eqn:B; [|reflexivity].
    repeat rewrite andb_true_iff in B. rewrite ?Nat.leb_le, ?Nat.ltb_lt in B.
    rewrite mat_rev_rows_get by lia. now rewrite Hlen.
  - pose proof (fun Hh Hw => block_assign_spec x (mat_rev_rows (mat_rev_cols y))
                  _ _ _ _ Hwx (mat_rev_rows_wf _ (mat_rev_cols_wf y Hwy))
                  Hr1 Hc1 Hh Hw Hr2 Hc2
                  (eq_trans (rows_rev_rows _) (eq_trans (rows_rev_cols y) Hry)) Hcy) as HB.
    destruct (HB ltac:(lia) ltac:(lia)) as (x' & E & H1 & H2 & H3 & H4).
    exists x'. repeat split; auto. intros i j. rewrite H4.
    destruct (_ && _ && _ && _) eqn:B; [|reflexivity].
    repeat rewrite andb_true_iff in B. rewrite ?Nat.leb_le, ?Nat.ltb_lt in B.
    rewrite mat_rev_rows_get by (simpl; rewrite length_map; lia).
    simpl mrows. rewrite length_map, Hlen.
    rewrite mat_rev_cols_get by (auto; lia). now rewrite Hcol.
Qed.

(** X7: [mat[min_max, min_max] = mat] does no range check of its own: it
    never throws [std::out_of_range], whatever the indexes. *)
Theorem assign_mat_min_max2_no_out_of_range (ri ci : index_min_max) (y x : mat A) :
  fst (assign_mat_min_max2 ri ci y x) <> inr OutOfRange.
Proof.
  unfold assign_mat_min_max2, block_assign, check_size_match; cbv [st_bind st_get].
  destruct (positive_idx_ ri), (positive_idx_ ci);
    repeat (match goal with
            | |- context [if ?b then _ else _] => destruct b
            end; simpl); discriminate.
Qed.

Lemma block_assign_rows_outside (r c h w : Z) (y x : mat A) :
  ~ (0 <= r /\ r + h <= rows x) ->
  block_assign r c h w y x = (inr EigenAssertion, x).
Proof.
  intros H. unfold block_assign; cbv [st_bind st_get].
  destruct (Z.leb_spec 0 r); [|reflexivity].
  destruct (Z.leb_spec (r + h) (rows x)); [lia|].
  rewrite !andb_false_r. reflexivity.
Qed.

(** X8: with a right-hand side of the selected shape, a [min_max] row range
    that does not lie inside the matrix (in any orientation) trips Eigen's
    block assertion, which is not an exception, and nothing is written. *)
Theorem assign_mat_min_max2_rows_outside (ri ci : index_min_max) (y x : mat A) :
  rows y = mm_size ri -> cols y = mm_size ci ->
  ~ (0 <= mm_start ri /\ mm_start ri + mm_size ri <= rows x) ->
  assign_mat_min_max2 ri ci y x = (inr EigenAssertion, x).
Proof.
  intros Hry Hcy Hout. unfold mm_start, mm_size in *.
  unfold assign_mat_min_max2; cbv [st_bind st_get].
  destruct (positive_idx_ ri), (positive_idx_ ci);
    rewrite (check_size_match_ok x _ _ (eq_sym Hry)); cbv beta iota;
    rewrite (check_size_match_ok x _ _ (eq_sym Hcy)); cbv beta iota;
    apply block_assign_rows_outside; lia.
Qed.

Lemma wf_mat_check (x : mat A) :
  forallb (fun r => Nat.eqb (length r) (Z.to_nat (mcols x))) (mrows x) = true ->
  wf_mat x.
Proof.
  intros H i r Hi. rewrite forallb_forall in H.
  apply Nat.eqb_eq, H. exact (nth_error_In _ _ Hi).
Qed.

End IndexingExtras.

Lemma in_range_dec (sz i : Z) : {in_range sz i} + {~ in_range sz i}.
Proof.
  unfold in_range. destruct (Z_le_dec 1 i), (Z_le_dec i sz);
    [left; lia|right; lia|right; lia|right; lia].
Qed.

Section ArrayExtras.
Context {T U : Type}.


Lemma firstn_S_set_nth {B : Type} (k : nat) (a : B) (x : list B) :
  (k < length x)%nat -> firstn (S k) (set_nth k a x) = firstn k x ++ [a].
Proof.
  revert k; induction x as [|b x IH]; intros [|k] H; simpl in *; try lia.
  - reflexivity.
  - f_equal. apply IH. lia.
Qed.

Lemma on_elem_run {B : Type} (k : nat) (m : st B unit) (x : list B) (e : B) :
  nth_error x k = Some e ->
  on_elem k m x = (fst (m e), set_nth k (snd (m e)) x).
Proof. intros H. unfold on_elem. rewrite H. now destruct (m e). Qed.

Lemma in_range_nth {B : Type} (x : list B) (n : Z) :
  in_range (size x) n -> exists e, nth_error x (Z.to_nat (n - 1)) = Some e.
Proof. intros H. apply nth_error_Some_lt. unfold in_range, size in H. lia. Qed.

(** X9: on a [std::vector], [x[uni] = y] (the index list [uni] followed by
    the empty list, whose terminal assignment is [x[n - 1] = y] through
    the conversion [conv]) does exactly what the Eigen overload [vec[uni] =
    scalar] does with [conv y]: the same range check, the same write. *)
Theorem assign_arr_uni_nil (conv : U -> T) (idx : index_uni) (y : U) (x : list T) :
  assign_arr_uni (fun _ : unit => assign_nil conv) idx tt y x
  = assign_vec_uni idx (conv y) x.
Proof.
  unfold assign_arr_uni, assign_vec_uni; cbv [st_bind st_get].
  destruct (in_range_dec (size x) (n_ idx)) as [H|H].
  - rewrite !(check_range_ok x _ _ H); cbv beta iota.
    destruct (in_range_nth x _ H) as [e He].
    rewrite (on_elem_run _ _ _ _ He). reflexivity.
  - now rewrite !(check_range_bad x _ _ H).
Qed.

Lemma assign_arr_multi_loop_nil {I : Type} (conv : U -> T)
  (rvalue_at : nat -> I -> Z) (idx : I) (ys : list U) :
  forall (n : nat) (x : list T),
    assign_arr_multi_loop (fun _ : unit => assign_nil conv) rvalue_at idx tt n ys x
    = assign_vec_multi_loop rvalue_at idx n (map conv ys) x.
Proof.
  induction ys as [|y0 ys IH]; intros n x; [reflexivity|].
  cbn [assign_arr_multi_loop assign_vec_multi_loop map]; cbv [st_bind st_get].
  destruct (in_range_dec (size x) (rvalue_at n idx)) as [H|H].
  - rewrite !(check_range_ok x _ _ H); cbv beta iota.
    destruct (in_range_nth x _ H) as [e He].
    rewrite (on_elem_run _ _ _ _ He). cbv beta iota. simpl fst; simpl snd.
    apply IH.
  - now rewrite !(check_range_bad x _ _ H).
Qed.

(** X10: on a [std::vector], [x[multi] = y] with a multiple index followed by
    the empty list does exactly what the Eigen overload [vec[multi] = vec]
    does with the converted values: the same size check, then the same
    loop of range checks and writes, stopping at the same position. *)
Theorem assign_arr_multi_nil {I : Type} (conv : U -> T)
  (rvalue_index_size : I -> Z -> Z) (rvalue_at : nat -> I -> Z)
  (idx : I) (ys : list U) (x : list T) :
  assign_arr_multi (fun _ : unit => assign_nil conv) rvalue_index_size rvalue_at idx tt ys x
  = assign_vec_multi rvalue_index_size rvalue_at idx (map conv ys) x.
Proof.
  unfold assign_arr_multi, assign_vec_multi; cbv [st_bind st_get].
  replace (size (map conv ys)) with (size ys) by (unfold size; now rewrite length_map).
  destruct (check_size_match (rvalue_index_size idx (size x)) (size ys) x)
    as [[[]|e] x1]; [|reflexivity].
  apply assign_arr_multi_loop_nil.
Qed.


Lemma resize_length (n : nat) (d : T) (x : list T) : length (resize n d x) = n.
Proof.
  unfold resize. rewrite length_app, length_firstn, repeat_length. lia.
Qed.

Lemma assign_nil_vec_loop_spec (elem_assign : U -> st T unit) (f : U -> T) :
  (forall u e, elem_assign u e = (inl tt, f u)) ->
  forall (ys : list U) (i : nat) (x : list T), length x = (i + length ys)%nat ->
    assign_nil_vec_loop elem_assign i ys x = (inl tt, firstn i x ++ map f ys).
Proof.
  intros Hf ys; induction ys as [|y0 ys IH]; intros i x Hx.
  - simpl in *. rewrite app_nil_r, firstn_all2 by lia. reflexivity.
  - cbn [assign_nil_vec_loop]; cbv [st_bind].
    destruct (nth_error_Some_lt x i) as [e He]; [simpl in Hx; lia|].
    rewrite (on_elem_run _ _ _ _ He), Hf. simpl fst; simpl snd. cbv beta iota.
    rewrite IH by (rewrite set_nth_length; simpl in Hx; lia).
    simpl in Hx. rewrite firstn_S_set_nth by lia. rewrite <- app_assoc. reflexivity.
Qed.

(** X12: the terminal assignment of one [std::vector] to another of a type
    that is not directly assignable first resizes the target to the size of
    the source, then assigns element by element: whatever the target's old
    size and contents, when every element assignment succeeds with [f u],
    the target becomes [map f y]. *)
Theorem assign_nil_vec_elementwise (elem_assign : U -> st T unit) (f : U -> T)
  (d : T) (y : list U) (x : list T) :
  (forall u e, elem_assign u e = (inl tt, f u)) ->
  assign_nil_vec elem_assign d y x = (inl tt, map f y).
Proof.
  intros Hf. unfold assign_nil_vec; cbv [st_bind st_modify]. cbv beta iota.
  rewrite (assign_nil_vec_loop_spec elem_assign f Hf y 0) by (rewrite resize_length; lia).
  reflexivity.
Qed.

End ArrayExtras.

(** Witnesses on small integer matrices and arrays. *)

Lemma assign_mat_uni_uni_read_back_witness :
  exists x', assign_mat_uni_uni {| n_ := 2 |} {| n_ := 1 |} 9 m22 = (inl tt, x')
    /\ mat_get x' 1 0 = Some 9 /\ mat_get x' 0 0 = Some 1.
Proof.
  destruct (assign_mat_uni_uni_read_back m22 {| n_ := 2 |} {| n_ := 1 |} 9)
    as (x' & E & _ & _ & _ & G).
  - apply wf_mat_check; reflexivity.
  - unfold in_range, rows; simpl; lia.
  - unfold in_range, cols; simpl; lia.
  - exists x'. rewrite !G. split; [exact E|split; reflexivity].
Defined.

Lemma assign_mat_uni_uni_out_of_range_witness :
  assign_mat_uni_uni {| n_ := 3 |} {| n_ := 1 |} 9 m22 = (inr OutOfRange, m22).
Proof.
  apply assign_mat_uni_uni_out_of_range.
  unfold in_range, rows, cols; simpl; lia.
Defined.

Lemma assign_mat_uni_read_back_witness :
  exists x', assign_mat_uni {| n_ := 1 |} [7; 8] m22 = (inl tt, x')
    /\ nth_error (mrows x') 0 = Some [7; 8] /\ nth_error (mrows x') 1 = Some [3; 4].
Proof.
  destruct (assign_mat_uni_read_back m22 {| n_ := 1 |} [7; 8])
    as (x' & E & _ & _ & G0 & G1).
  - reflexivity.
  - unfold in_range, rows; simpl; lia.
  - exists x'. split; [exact E|split; [exact G0|]].
    rewrite G1 by (simpl; lia). reflexivity.
Defined.

Lemma assign_mat_uni_errors_witness :
  assign_mat_uni {| n_ := 1 |} [7] m22 = (inr SizeMismatch, m22)
  /\ assign_mat_uni {| n_ := 3 |} [7; 8] m22 = (inr OutOfRange, m22).
Proof.
  split.
  - apply (proj1 (assign_mat_uni_errors m22 {| n_ := 1 |} [7])).
    unfold cols, size; simpl; lia.
  - apply (proj2 (assign_mat_uni_errors m22 {| n_ := 3 |} [7; 8])).
    + reflexivity.
    + unfold in_range, rows; simpl; lia.
Defined.

Lemma assign_mat_omni_uni_read_back_witness :
  exists x', assign_mat_omni_uni {| n_ := 2 |} [7; 8] m22 = (inl tt, x')
    /\ mat_get x' 0 1 = Some 7 /\ mat_get x' 1 1 = Some 8 /\ mat_get x' 1 0 = Some 3.
Proof.
  destruct (assign_mat_omni_uni_read_back m22 {| n_ := 2 |} [7; 8])
    as (x' & E & _ & _ & _ & G).
  - apply wf_mat_check; reflexivity.
  - reflexivity.
  - unfold in_range, cols; simpl; lia.
  - exists x'. rewrite !G. split; [exact E|repeat split].
Defined.


(** Rows [3:2] and columns [2:1], both descending: the block
    [x[2..3, 1..2]] receives [y] reversed in both directions. *)
Lemma assign_mat_min_max2_read_back_witness :
  exists x', assign_mat_min_max2 {| min_ := 3; max_ := 2; positive_idx_ := false |}
               {| min_ := 2; max_ := 1; positive_idx_ := false |} m22 m33 = (inl tt, x')
    /\ mat_get x' 1 0 = Some 4 /\ mat_get x' 1 1 = Some 3
    /\ mat_get x' 2 0 = Some 2 /\ mat_get x' 2 1 = Some 1 /\ mat_get x' 0 0 = Some 0
    /\ mat_get x' 1 2 = Some 0.
Proof.
  destruct (assign_mat_min_max2_read_back
              {| min_ := 3; max_ := 2; positive_idx_ := false |}
              {| min_ := 2; max_ := 1; positive_idx_ := false |} m22 m33)
    as (x' & E & _ & _ & _ & G).
  - apply wf_mat_check; reflexivity.
  - apply wf_mat_check; reflexivity.
  - reflexivity.
  - reflexivity.
  - unfold cols; simpl; lia.
  - unfold mm_start; simpl; lia.
  - unfold mm_start, mm_size, rows; simpl; lia.
  - unfold mm_start; simpl; lia.
  - unfold mm_start, mm_size, cols; simpl; lia.
  - exists x'. rewrite !G. split; [exact E|repeat split].
Defined.

Lemma assign_mat_min_max2_rows_outside_witness :
  assign_mat_min_max2 {| min_ := 1; max_ := 3; positive_idx_ := true |}
    {| min_ := 1; max_ := 1; positive_idx_ := true |} (mk_mat 1 [[5]; [6]; [7]]) m22
  = (inr EigenAssertion, m22).
Proof.
  apply assign_mat_min_max2_rows_outside.
  - reflexivity.
  - reflexivity.
  - unfold mm_start, mm_size, rows; simpl; lia.
Defined.


Lemma assign_nil_vec_elementwise_witness :
  assign_nil_vec (assign_nil (fun v : Z => v + 1)) 0 [1; 2] [5; 6; 7]
  = (inl tt, [2; 3]).
Proof.
  apply (assign_nil_vec_elementwise (assign_nil (fun v : Z => v + 1)) (fun v => v + 1)).
  intros u e. reflexivity.
Defined.

(** ** Covariance *)

Local Open Scope R_scope.

(** C7 (amended): for a matrix with exactly one row and at least one
    column, [covariance] returns the square zero matrix of the column
    count (the divisor is [max(1 - 1, 1) = 1]). *)
Theorem covariance_single_row (Y : rmat) :
  nr Y = 1%Z -> (0 < nc Y)%Z ->
  exists C, covariance Y = inl C /\ nr C = nc Y /\ nc C = nc Y
            /\ (forall i j, ent C i j = 0).
Proof.
  intros H1 Hc.
  unfold covariance, check_nonzero_size. rewrite H1.
  replace ((1 * nc Y =? 0)%Z) with false by (symmetry; apply Z.eqb_neq; lia).
  simpl. eexists; split; [reflexivity|].
  split; [reflexivity|]. split; [reflexivity|].
  intros i j. unfold col_mean. rewrite H1. simpl.
  rewrite Rmax_right by lra. field.
Qed.

(** Counterexample for C7: a 1x0 matrix has exactly one row, but
    [check_nonzero_size] rejects it. *)
Lemma covariance_one_by_zero_rejected :
  covariance (mk_rmat 1 0 (fun _ _ => 0)) = inr InvalidArgument.
Proof. reflexivity. Qed.

(** Witness for C7: the 1x2 matrix [[3, 4]]. *)
Lemma covariance_single_row_witness :
  exists C, covariance (mk_rmat 1 2 (fun _ j => if Nat.eqb j 0 then 3 else 4))
            = inl C /\ nr C = 2%Z /\ nc C = 2%Z /\ (forall i j, ent C i j = 0).
Proof.
  apply (covariance_single_row (mk_rmat 1 2 (fun _ j => if Nat.eqb j 0 then 3 else 4)));
    simpl; lia.
Defined.

(** ** Power iteration *)

Section PowerMethodFacts.
Variable f : rvec -> rvec.
Variables (v0 : rvec) (cap : Z) (tol : R).

Lemma power_loop_spec (fuel j : nat) :
  (Z.of_nat j < cap)%Z -> fuel = Z.to_nat (cap - Z.of_nat j) ->
  (forall j', (j' < j)%nat -> ~ pm_stop f v0 tol j') ->
  exists k, (j <= k)%nat /\ (Z.of_nat k < cap)%Z
    /\ power_loop f fuel (Z.of_nat j) (pm_iterate f v0 j)
         (f (pm_iterate f v0 j)) (pm_previous f v0 j) cap tol
       = (pm_estimate f v0 k, (Z.of_nat k + 1)%Z,
          Rabs (pm_estimate f v0 k - pm_previous f v0 k)
          / Rabs (pm_previous f v0 k))
    /\ (Z.of_nat k = cap - 1 \/ pm_stop f v0 tol k)%Z
    /\ (forall j', (j' < k)%nat -> ~ pm_stop f v0 tol j').
Proof.
  revert j; induction fuel as [|fuel IH]; intros j Hj Hf Hbefore; [lia|].
  cbn [power_loop]. rewrite (proj2 (Z.ltb_lt _ _) Hj).
  destruct ((Z.of_nat j =? cap - 1)%Z) eqn:Eq.
  - exists j. apply Z.eqb_eq in Eq. repeat split; auto; try lia.
  - simpl orb. unfold Rle_bool.
    destruct (Rle_dec _ _) as [Hs|Hs].
    + exists j. repeat split; auto; try lia.
    + apply Z.eqb_neq in Eq.
      destruct (IH (S j)) as (k & Hk1 & Hk2 & Hk3 & Hk4 & Hk5).
      * lia.
      * lia.
      * intros j' Hj'. destruct (Nat.eq_dec j' j) as [->|Hne].
        -- exact Hs.
        -- apply Hbefore; lia.
      * exists k. split; [lia|]. split; [exact Hk2|].
        replace (Z.of_nat j + 1)%Z with (Z.of_nat (S j)) by lia.
        split; [exact Hk3|]. split; assumption.
Qed.

End PowerMethodFacts.

(** C6 (amended): [power_method] is a total function (it always
    terminates). If the first product does not have the size of the
    initial guess, it throws. If the cap is not positive, no round is run:
    it returns [0] and leaves [max_iterations] and [tol] unchanged. If the
    cap is positive, it stops at the first round [k] (counted from 0) at
    which [|e_k - e_(k-1)| <= tol * |e_(k-1)|] or [k = cap - 1]
    ([e_(-1) = 0]); it returns [e_k], sets [max_iterations] to [k + 1 <=
    cap] and [tol] to [|e_k - e_(k-1)| / |e_(k-1)|]. *)
Theorem power_method_rounds (f : rvec -> rvec) (v0 : rvec) (cap : Z) (tol : R) :
  (length (f v0) <> length v0 -> power_method f v0 cap tol = inr InvalidArgument)
  /\ (length (f v0) = length v0 -> (cap <= 0)%Z ->
      power_method f v0 cap tol = inl (0, cap, tol))
  /\ (length (f v0) = length v0 -> (0 < cap)%Z ->
      exists k : nat, (1 <= Z.of_nat k + 1 <= cap)%Z
        /\ power_method f v0 cap tol
           = inl (pm_estimate f v0 k, (Z.of_nat k + 1)%Z,
                  Rabs (pm_estimate f v0 k - pm_previous f v0 k)
                  / Rabs (pm_previous f v0 k))
        /\ (Z.of_nat k = cap - 1 \/ pm_stop f v0 tol k)%Z
        /\ (forall j, (j < k)%nat -> ~ pm_stop f v0 tol j)).
Proof.
  split; [|split].
  - intros H. unfold power_method.
    now rewrite (proj2 (Nat.eqb_neq _ _) H).
  - intros H Hc. unfold power_method. rewrite H, Nat.eqb_refl. simpl.
    replace (Z.to_nat cap) with O by lia. reflexivity.
  - intros H Hc. unfold power_method. rewrite H, Nat.eqb_refl. simpl negb.
    cbv iota.
    destruct (power_loop_spec f v0 cap tol (Z.to_nat cap) 0)
      as (k & _ & Hk2 & Hk3 & Hk4 & Hk5).
    + simpl; lia.
    + simpl; f_equal; lia.
    + intros; lia.
    + exists k. split; [lia|]. split; [|split; assumption].
      simpl in Hk3. now rewrite Hk3.
Qed.

(** Counterexample for C6: with the cap [-1] no round runs; the returned
    [max_iterations] is [-1], which is not a number of rounds, and [tol]
    keeps the supplied tolerance. *)
Lemma power_method_negative_cap :
  power_method (fun v => v) [1%R] (-1) (1 / 1000) = inl (0, (-1)%Z, 1 / 1000)
  /\ (-1 < 0)%Z.
Proof. split; [reflexivity|lia]. Qed.

(** Witness for C6: the identity operator on [[1%R]] with cap 3. *)
Lemma power_method_rounds_witness :
  (length ((fun v : rvec => v) [1%R]) = length [1%R] /\ (0 < 3)%Z)
  /\ exists k : nat, (1 <= Z.of_nat k + 1 <= 3)%Z
       /\ power_method (fun v => v) [1%R] 3 (1 / 1000)
          = inl (pm_estimate (fun v => v) [1%R] k, (Z.of_nat k + 1)%Z,
                 Rabs (pm_estimate (fun v => v) [1%R] k - pm_previous (fun v => v) [1%R] k)
                 / Rabs (pm_previous (fun v => v) [1%R] k))
       /\ (Z.of_nat k = 3 - 1 \/ pm_stop (fun v => v) [1%R] (1 / 1000) k)%Z
       /\ (forall j, (j < k)%nat -> ~ pm_stop (fun v => v) [1%R] (1 / 1000) j).
Proof.
  split; [split; [reflexivity|lia]|].
  apply (proj2 (proj2 (power_method_rounds (fun v => v) [1%R] 3 (1 / 1000)))).
  - reflexivity.
  - lia.
Defined.

(** ** The adaptive metric *)

(** Reduce the binds of a [res] computation in a hypothesis and close the
    branches where it failed. *)
Ltac simpl_res H := cbv beta iota delta [res_bind] in H; try discriminate H.

(** C3: when the usable draw count of a [learn_metric] call is below 10,
    the selection pass throws (insufficient samples); [learn_metric] catches
    it and returns normally, with [is_diagonal_] set and the diagonal
    fallback metric [1e-3 * (5 / (num_draws + 5)) * Identity] as [covar]. *)
Theorem learn_metric_insufficient_samples_fallback
  (llt_L : rmat -> rmat) (esc : rmat -> rmat -> res R)
  (esh : rmat -> rvec -> res R) (s s1 : auto_adaptation) (win : Z) :
  collect_draws s = inl s1 ->
  (usable_draws s1 win < 10)%Z ->
  pass_candidates s1 (first_draw s1 win) (usable_draws s1 win) selection
    = inr RuntimeError
  /\ learn_metric llt_L esc esh s win
     = inl (with_is_diagonal s1 true,
            fallback_metric (n_params_ s1) (usable_draws s1 win))
  /\ is_diagonal_ (with_is_diagonal s1 true) = true
  /\ (forall i j : nat, i <> j ->
        ent (fallback_metric (n_params_ s1) (usable_draws s1 win)) i j = 0)
  /\ (forall i : nat,
        ent (fallback_metric (n_params_ s1) (usable_draws s1 win)) i i
        = 1 / 1000 * (5 / (IZR (usable_draws s1 win) + 5))).
Proof.
  intros Hc Hn.
  assert (Hsel : pass_candidates s1 (first_draw s1 win) (usable_draws s1 win)
                   selection = inr RuntimeError).
  { unfold pass_candidates. cbv zeta.
    now rewrite (proj2 (Z.ltb_lt _ _) Hn). }
  split; [exact Hsel|].
  split.
  { unfold learn_metric. rewrite Hc. cbn [res_bind].
    unfold learn_metric_passes. rewrite Hsel. reflexivity. }
  split; [reflexivity|].
  split.
  - intros i j Hij. unfold fallback_metric, as_diagonal. simpl.
    now rewrite (proj2 (Nat.eqb_neq _ _) Hij).
  - intros i. unfold fallback_metric, as_diagonal. simpl.
    rewrite Nat.eqb_refl. ring.
Qed.

(** Witness for C3: four chains, two collected draws each (8 usable draws)
    in window 0. *)
Lemma learn_metric_insufficient_samples_fallback_witness :
  learn_metric (fun L => L) (fun _ _ => inl 1) (fun _ _ => inl 1)
    (mk_auto_adaptation 4 1 10 0 10 0 2 [] [] (rzero 40 1) false) 0
  = inl (mk_auto_adaptation 4 1 10 0 10 0 2 [] [] (rzero 40 1) true,
         fallback_metric 1 8).
Proof.
  apply (learn_metric_insufficient_samples_fallback (fun L => L)
           (fun _ _ => inl 1) (fun _ _ => inl 1)
           (mk_auto_adaptation 4 1 10 0 10 0 2 [] [] (rzero 40 1) false)
           (mk_auto_adaptation 4 1 10 0 10 0 2 [] [] (rzero 40 1) false) 0).
  - reflexivity.
  - vm_compute. reflexivity.
Defined.

(** C8 (amended): in each pass, with [n] the number of training rows
    ([num_draws - Ntest]: the usable draws minus the held-out count
    [Ntest = max(5, num_draws / 5)] in the selection pass, all usable draws
    in the refinement pass), the dense candidate is
    [n/(n+5) * cov_train + 1e-3 * (5/(n+5)) * Identity], where [cov_train]
    is the sample covariance of those [n] rows, and the diagonal candidate
    is the diagonal projection of the dense one. *)
Theorem pass_candidates_shrinkage (s : auto_adaptation) (fd nd : Z) (p : pass)
  (Ntest : Z) (cov_train cov_test dense diag : rmat) :
  pass_candidates s fd nd p = inl (Ntest, cov_train, cov_test, dense, diag) ->
  (p = selection -> Ntest = Z.max 5 (nd / 5))
  /\ (p = refinement -> Ntest = 0%Z)
  /\ (exists Ytrain, rblock (Y_ s) fd 0 (nd - Ntest) (n_params_ s) = inl Ytrain
                     /\ nr Ytrain = (nd - Ntest)%Z
                     /\ covariance Ytrain = inl cov_train)
  /\ nr dense = nr cov_train /\ nc dense = nc cov_train
  /\ (forall i j,
        ent dense i j
        = IZR (nd - Ntest) / (IZR (nd - Ntest) + 5) * ent cov_train i j
          + 1 / 1000 * (5 / (IZR (nd - Ntest) + 5))
            * (if Nat.eqb i j then 1 else 0))
  /\ diag = diagonal_projection dense.
Proof.
  intros H.
  assert (Hblk : forall Y r c h w B, rblock Y r c h w = inl B -> nr B = h).
  { intros Y r c h w B HB. unfold rblock in HB.
    destruct (_ && _); inversion HB; reflexivity. }
  unfold pass_candidates in H. cbv zeta in H. destruct p.
  - destruct (nd <? 10)%Z; [discriminate|].
    set (Nt := if (nd / 5 <? 5)%Z then 5%Z else (nd / 5)%Z) in H.
    destruct (rblock (Y_ s) fd 0 (nd - Nt) (n_params_ s)) as [Ytr|e] eqn:Etr;
      simpl_res H.
    destruct (rblock (Y_ s) (fd + nd - Nt) 0 Nt (n_params_ s)) as [Yte|e];
      simpl_res H.
    destruct (covariance Ytr) as [Ctr|e] eqn:Ectr; simpl_res H.
    destruct (covariance Yte) as [Cte|e]; simpl_res H.
    injection H as <- <- <- <- <-.
    split; [intros _; subst Nt; destruct (Z.ltb_spec (nd / 5) 5); lia|].
    split; [discriminate|].
    split; [exists Ytr; split; [exact Etr|split; [eapply Hblk; exact Etr|exact Ectr]]|].
    split; [reflexivity|]. split; [reflexivity|].
    split; [|reflexivity].
    intros i j. reflexivity.
  - destruct (rblock (Y_ s) fd 0 nd (n_params_ s)) as [Ytr|e] eqn:Etr; simpl_res H.
    destruct (covariance Ytr) as [Ctr|e] eqn:Ectr; simpl_res H.
    injection H as <- <- <- <- <-.
    split; [discriminate|].
    split; [reflexivity|].
    rewrite Z.sub_0_r.
    split; [exists Ytr; split; [exact Etr|split; [eapply Hblk; exact Etr|exact Ectr]]|].
    split; [reflexivity|]. split; [reflexivity|].
    split; [|reflexivity].
    intros i j. reflexivity.
Qed.

(** Counterexample for C8: one parameter, 20 usable draws, all zero. The
    selection pass holds out 5 draws and trains on 15, and the dense entry
    is [15/20 * 0 + 1e-3 * 5/20]; with [n = 15 - 5 = 10] the claimed entry
    would be [1e-3 * 5/15]. *)
Lemma pass_candidates_n_is_training_size :
  match pass_candidates (mk_auto_adaptation 1 1 20 0 20 0 20 [] [] (rzero 20 1) false)
          0 20 selection with
  | inl (Ntest, cov_train, _, dense, _) =>
      let n := ((20 - Ntest) - Ntest)%Z in
      ent dense 0 0
      <> IZR n / (IZR n + 5) * ent cov_train 0 0 + 1 / 1000 * (5 / (IZR n + 5)) * 1
  | inr _ => False
  end.
Proof.
  simpl.
  assert (Hm : col_mean {| nr := 15; nc := 1; ent := fun _ _ : nat => 0 |} 0 = 0)
    by (unfold col_mean; simpl; field).
  rewrite Hm. rewrite Rmax_left by lra. intro H. field_simplify in H. lra.
Qed.

(** Witness for C8: the refinement pass on 20 usable zero draws. *)
Lemma pass_candidates_shrinkage_witness :
  exists Ntest cov_train cov_test dense diag,
    pass_candidates (mk_auto_adaptation 1 1 20 0 20 0 20 [] [] (rzero 20 1) false)
      0 20 refinement = inl (Ntest, cov_train, cov_test, dense, diag)
    /\ Ntest = 0%Z
    /\ diag = diagonal_projection dense.
Proof.
  eexists; eexists; eexists; eexists; eexists.
  split; [reflexivity|].
  match goal with
  | |- ?N = 0%Z /\ ?D = diagonal_projection ?E =>
      pose proof (pass_candidates_shrinkage
                    (mk_auto_adaptation 1 1 20 0 20 0 20 [] [] (rzero 20 1) false)
                    0 20 refinement N _ _ E D eq_refl) as HW
  end.
  destruct HW as (_ & HN & _ & _ & _ & _ & HD).
  split; [apply HN; reflexivity|exact HD].
Defined.

(** ** Further properties of the metric estimator *)

Lemma sumR_ext (n : nat) (f g : nat -> R) :
  (forall k, (k < n)%nat -> f k = g k) -> sumR n f = sumR n g.
Proof.
  induction n as [|n IH]; intros H; simpl; [reflexivity|].
  rewrite IH by (intros; apply H; lia). rewrite H by lia. reflexivity.
Qed.



Lemma sumR_nonneg (n : nat) (f : nat -> R) :
  (forall k, 0 <= f k) -> 0 <= sumR n f.
Proof.
  intros H; induction n as [|n IH]; simpl; [lra|]. specialize (H n). lra.
Qed.

Lemma covariance_shape (Y C : rmat) :
  covariance Y = inl C ->
  nr C = nc Y /\ nc C = nc Y
  /\ (forall i j, ent C i j = ent C j i) /\ (forall i, 0 <= ent C i i).
Proof.
  unfold covariance. destruct (check_nonzero_size Y) as [[]|e]; simpl;
    intros H; [|discriminate].
  injection H as <-. simpl. split; [reflexivity|]. split; [reflexivity|].
  assert (Hd : 1 <= Rmax (IZR (nr Y) - 1) 1) by apply Rmax_r.
  split.
  - intros i j. f_equal. apply sumR_ext. intros k _. ring.
  - intros i. unfold Rdiv. apply Rmult_le_pos.
    + apply sumR_nonneg. intros k. apply Rle_0_sqr.
    + left. apply Rinv_0_lt_compat. lra.
Qed.

(** X13: a matrix that [covariance] accepts gives a square matrix of the
    column count that is symmetric and has no negative diagonal entry. *)
Theorem covariance_symmetric (Y C : rmat) :
  covariance Y = inl C ->
  nr C = nc Y /\ nc C = nc Y
  /\ (forall i j, ent C i j = ent C j i) /\ (forall i, 0 <= ent C i i).
Proof. apply covariance_shape. Qed.






Lemma dot_self_nonneg (v : rvec) : 0 <= dot v v.
Proof.
  induction v as [|a v IH]; unfold dot in *; simpl; [lra|].
  pose proof (Rle_0_sqr a); unfold Rsqr in *; lra.
Qed.





(** X16: [add_sample] keeps [last_qs_] as the last (at most 5) points it
    was given: from a history of at most 5 points, the new history is the
    last 5 of the old one followed by [q]. It also fills the next slot of
    [draws] and counts the request. *)
Theorem add_sample_history (q : rvec) (g : rmat) (s s' : auto_adaptation) :
  (length (last_qs_ s) <= 5)%nat -> add_sample q g s = Some s' ->
  last_qs_ s' = lastn 5 (last_qs_ s ++ [q])
  /\ (length (last_qs_ s') <= 5)%nat
  /\ draw_req_counter_ s' = (draw_req_counter_ s + 1)%Z
  /\ nth_error (draws s') (Z.to_nat (draw_req_counter_ s)) = Some g
  /\ length (draws s') = length (draws s).
Proof.
  intros Hl H. unfold add_sample in H.
  destruct ((0 <=? draw_req_counter_ s) && (draw_req_counter_ s <? Z.of_nat (length (draws s))))%Z
    eqn:E; [|discriminate].
  injection H as <-. simpl.
  apply andb_true_iff in E as [E1 E2]. apply Z.leb_le in E1. apply Z.ltb_lt in E2.
  unfold lastn.
  assert (Hlen : length (last_qs_ s ++ [q]) = S (length (last_qs_ s)))
    by (rewrite length_app; simpl; lia).
  set (l := last_qs_ s ++ [q]) in *.
  split; [|split; [|split; [reflexivity|split]]].
  - destruct (Nat.ltb_spec 5 (length l)) as [H5|H5].
    + replace (length l - 5)%nat with 1%nat by lia.
      destruct l; reflexivity.
    + replace (length l - 5)%nat with 0%nat by lia. reflexivity.
  - destruct (Nat.ltb_spec 5 (length l)) as [H5|H5].
    + destruct l; simpl in *; lia.
    + lia.
  - apply set_nth_same. lia.
  - apply set_nth_length.
Qed.

Lemma add_samples_overflow_aux (samples : list (rvec * rmat)) :
  forall s, (0 <= draw_req_counter_ s)%Z ->
  (Z.to_nat (draw_req_counter_ s) <= length (draws s))%nat ->
  (length (draws s) < Z.to_nat (draw_req_counter_ s) + length samples)%nat ->
  add_samples samples s = None.
Proof.
  induction samples as [|[q g] rest IH]; intros s H0 H1 H2; simpl in *; [lia|].
  unfold add_sample.
  destruct ((0 <=? draw_req_counter_ s) && (draw_req_counter_ s <? Z.of_nat (length (draws s))))%Z
    eqn:E; [|reflexivity].
  apply andb_true_iff in E as [_ E]. apply Z.ltb_lt in E.
  apply IH; simpl; rewrite ?set_nth_length; lia.
Qed.

(** X17: [draws] has one slot per request of a window; without a
    [collect_draws] in between (which resets [draw_req_counter_]), more
    calls of [add_sample] than there are slots index [draws] past its end
    (undefined behaviour). *)
Theorem add_samples_overflow (samples : list (rvec * rmat)) (s : auto_adaptation) :
  draw_req_counter_ s = 0%Z -> (length (draws s) < length samples)%nat ->
  add_samples samples s = None.
Proof.
  intros H0 H1. apply add_samples_overflow_aux; rewrite H0; simpl; lia.
Qed.

Lemma add_samples_counters (samples : list (rvec * rmat)) :
  forall s s1, add_samples samples s = Some s1 ->
  draw_req_counter_ s1 = (draw_req_counter_ s + Z.of_nat (length samples))%Z
  /\ draws_collected_counter_ s1 = draws_collected_counter_ s.
Proof.
  induction samples as [|[q g] rest IH]; intros s s1 H; simpl in H.
  - injection H as <-. simpl. split; [lia|reflexivity].
  - unfold add_sample in H.
    destruct ((0 <=? draw_req_counter_ s) && (draw_req_counter_ s <? Z.of_nat (length (draws s))))%Z;
      [|discriminate].
    destruct (IH _ _ H) as [H1 H2]. simpl in H1, H2.
    simpl length. split; [lia|exact H2].
Qed.

Lemma for_loop_ind {S : Type} (P : S -> Prop) (count : nat) (k : Z)
  (body : Z -> S -> res S) (s s' : S) :
  (forall k' t t', (k <= k' < k + Z.of_nat count)%Z -> body k' t = inl t' -> P t -> P t') ->
  for_loop count k body s = inl s' -> P s -> P s'.
Proof.
  revert k s; induction count as [|n IH]; intros k s Hb H Hs; simpl in H.
  - injection H as <-; exact Hs.
  - destruct (body k s) as [t|e] eqn:E; simpl in H; [|discriminate].
    apply (IH (k + 1)%Z t).
    + intros k' t0 t0' Hk. apply Hb. lia.
    + exact H.
    + apply (Hb k s t); [lia|exact E|exact Hs].
Qed.

Lemma for_loop_fail {S : Type} (count : nat) (k : Z) (body : Z -> S -> res S) (s : S) (e : fail) :
  (forall k' t e', body k' t = inr e' -> e' = EigenAssertion) ->
  for_loop count k body s = inr e -> e = EigenAssertion.
Proof.
  revert k s; induction count as [|n IH]; intros k s Hb H; simpl in H; [discriminate|].
  destruct (body k s) as [t|e'] eqn:E; simpl in H.
  - exact (IH _ _ Hb H).
  - injection H as <-. exact (Hb _ _ _ E).
Qed.

Lemma write_draw_row_fail (index chain : Z) (s : auto_adaptation) (e : fail) :
  write_draw_row index chain s = inr e -> e = EigenAssertion.
Proof.
  unfold write_draw_row. destruct (nth_error (draws s) (Z.to_nat index)); [|congruence].
  destruct (_ && _); congruence.
Qed.


Lemma write_draw_row_ok (index chain : Z) (s s' : auto_adaptation) :
  write_draw_row index chain s = inl s' ->
  exists D, nth_error (draws s) (Z.to_nat index) = Some D
    /\ (0 <= chain < nc D)%Z
    /\ (0 <= (draws_collected_counter_ s + index) * num_chains_ s + chain)%Z
    /\ s' = with_Y s (mk_rmat (nr (Y_ s)) (nc (Y_ s))
              (fun i j => if Nat.eqb i (Z.to_nat ((draws_collected_counter_ s + index)
                                                  * num_chains_ s + chain))
                          then ent D j (Z.to_nat chain) else ent (Y_ s) i j)).
Proof.
  unfold write_draw_row. destruct (nth_error (draws s) (Z.to_nat index)) as [D|]; [|congruence].
  destruct (_ && _) eqn:E; [|congruence]. intros H. injection H as <-.
  exists D. repeat rewrite andb_true_iff in E.
  rewrite ?Z.leb_le, ?Z.ltb_lt, ?Z.eqb_eq in E.
  split; [reflexivity|]. split; [lia|]. split; [lia|reflexivity].
Qed.

Lemma write_draw_row_same (index chain : Z) (s s' t : auto_adaptation) :
  write_draw_row index chain s = inl s' -> same_but_Y t s -> same_but_Y t s'.
Proof.
  intros H Hs. destruct (write_draw_row_ok _ _ _ _ H) as (D & _ & _ & _ & ->).
  unfold same_but_Y in *. simpl. tauto.
Qed.

Lemma collect_draws_spec (s s' : auto_adaptation) :
  collect_draws s = inl s' ->
  draw_req_counter_ s' = 0%Z
  /\ draws_collected_counter_ s' = (draws_collected_counter_ s + draw_req_counter_ s)%Z
  /\ num_chains_ s' = num_chains_ s /\ n_params_ s' = n_params_ s
  /\ last_qs_ s' = last_qs_ s /\ draws s' = draws s.
Proof.
  unfold collect_draws.
  destruct (for_loop _ _ _ s) as [s1|e] eqn:E; simpl; intros H; [|discriminate].
  injection H as <-.
  assert (Hs : same_but_Y s s1).
  { refine (for_loop_ind (same_but_Y s) _ _ _ s s1 _ E _).
    - intros index t t' _ Ht Hst.
      refine (for_loop_ind (same_but_Y s) _ _ _ t t' _ Ht Hst).
      intros chain u u' _ Hu Hsu. exact (write_draw_row_same _ _ _ _ _ Hu Hsu).
    - unfold same_but_Y; tauto. }
  unfold same_but_Y in Hs. simpl. intuition congruence.
Qed.

(** X18: after [k] calls of [add_sample] from a state with no pending
    request, [collect_draws] (when it completes) leaves no pending request
    and has advanced [draws_collected_counter_] by exactly [k]. *)
Theorem add_samples_collect_draws (samples : list (rvec * rmat))
  (s s1 s2 : auto_adaptation) :
  draw_req_counter_ s = 0%Z -> add_samples samples s = Some s1 ->
  collect_draws s1 = inl s2 ->
  draw_req_counter_ s2 = 0%Z
  /\ draws_collected_counter_ s2
     = (draws_collected_counter_ s + Z.of_nat (length samples))%Z.
Proof.
  intros H0 H1 H2.
  destruct (add_samples_counters _ _ _ H1) as [C1 C2].
  destruct (collect_draws_spec _ _ H2) as (D1 & D2 & _).
  split; [exact D1|]. rewrite D2, C1, C2, H0. lia.
Qed.

(** X19: [learn_metric] never lets a C++ exception out: whatever the state,
    it either returns or stops on an Eigen assertion (from [collect_draws]
    or from a block of a pass). *)
Theorem learn_metric_no_exception_escapes (llt_L : rmat -> rmat)
  (esc : rmat -> rmat -> res R) (esh : rmat -> rvec -> res R)
  (s : auto_adaptation) (win : Z) :
  match learn_metric llt_L esc esh s win with
  | inl _ => True
  | inr e => is_exception e = false
  end.
Proof.
  unfold learn_metric.
  destruct (collect_draws s) as [s1|e] eqn:E; simpl.
  - destruct (learn_metric_passes _ _ _ s1 _ _) as [[covar b]|e']; [exact I|].
    destruct (is_exception e') eqn:Ee; [exact I|exact Ee].
  - unfold collect_draws in E.
    destruct (for_loop _ _ _ s) as [s1|e'] eqn:F; simpl in E; [discriminate|].
    injection E as <-.
    rewrite (for_loop_fail _ _ _ _ _ (fun index t e0 H =>
               for_loop_fail _ _ _ _ _ (fun chain u e1 Hu => write_draw_row_fail _ _ _ _ Hu) H) F).
    reflexivity.
Qed.

Lemma rblock_dims (Y B : rmat) (r c h w : Z) :
  rblock Y r c h w = inl B -> nr B = h /\ nc B = w.
Proof. unfold rblock. destruct (_ && _); intros H; inversion H; auto. Qed.

Lemma pass_refinement_spec (s : auto_adaptation) (fd nd Nt : Z)
  (ct cte dense diag : rmat) :
  pass_candidates s fd nd refinement = inl (Nt, ct, cte, dense, diag) ->
  exists Ytr, rblock (Y_ s) fd 0 nd (n_params_ s) = inl Ytr
    /\ covariance Ytr = inl ct /\ dense = shrunk_dense nd ct
    /\ diag = diagonal_projection dense.
Proof.
  intros H. unfold pass_candidates in H. cbv zeta in H.
  destruct (rblock (Y_ s) fd 0 nd (n_params_ s)) as [Ytr|e] eqn:Eb; simpl_res H.
  destruct (covariance Ytr) as [C|e] eqn:Ec; simpl_res H.
  injection H as _ <- _ <- <-. exists Ytr. rewrite Z.sub_0_r. auto.
Qed.

Lemma learn_metric_passes_spec (llt_L : rmat -> rmat)
  (esc : rmat -> rmat -> res R) (esh : rmat -> rvec -> res R)
  (s : auto_adaptation) (fd nd : Z) (covar : rmat) (b : bool) :
  learn_metric_passes llt_L esc esh s fd nd = inl (covar, b) ->
  exists Nt ct cte dense diag,
    pass_candidates s fd nd refinement = inl (Nt, ct, cte, dense, diag)
    /\ ((b = false /\ covar = dense) \/ (b = true /\ covar = diag)).
Proof.
  intros H. unfold learn_metric_passes in H.
  destruct (pass_candidates s fd nd selection) as [[[[[? ?] ?] ?] ?]|e]; simpl_res H.
  destruct (select_dense _ _ _ _ _ _ _) as [u|e]; simpl_res H.
  destruct (pass_candidates s fd nd refinement) as [[[[[Nt ct] cte] dense] diag]|e];
    simpl_res H.
  exists Nt, ct, cte, dense, diag. split; [reflexivity|].
  destruct u; injection H as <- <-; auto.
Qed.

Lemma shrink_pos (n c : R) :
  0 <= n -> 0 <= c -> 0 < n / (n + 5) * c + 1 / 1000 * (5 / (n + 5)) * 1.
Proof.
  intros Hn Hc.
  assert (H1 : 0 <= n / (n + 5)) by (unfold Rdiv; apply Rmult_le_pos; [lra|apply Rlt_le, Rinv_0_lt_compat; lra]).
  assert (H2 : 0 < 5 / (n + 5)) by (unfold Rdiv; apply Rmult_lt_0_compat; [lra|apply Rinv_0_lt_compat; lra]).
  assert (H3 : 0 <= n / (n + 5) * c) by (apply Rmult_le_pos; lra).
  lra.
Qed.

Lemma as_diagonal_sym (d : nat -> R) (m : Z) (i j : nat) :
  ent (as_diagonal d m) i j = ent (as_diagonal d m) j i.
Proof.
  unfold as_diagonal; simpl.
  destruct (Nat.eqb_spec i j) as [->|H]; [rewrite Nat.eqb_refl; reflexivity|].
  rewrite (proj2 (Nat.eqb_neq j i)) by auto. reflexivity.
Qed.

(** X20: whenever [learn_metric] returns, the metric [covar] it outputs is
    an [n_params_] x [n_params_] symmetric matrix with a strictly positive
    diagonal (the shrinkage term [1e-3 * 5 / (n + 5)] keeps it away from
    zero), and it is diagonal whenever [is_diagonal_] is set. *)
Theorem learn_metric_covar_shape (llt_L : rmat -> rmat)
  (esc : rmat -> rmat -> res R) (esh : rmat -> rvec -> res R)
  (s s' : auto_adaptation) (win : Z) (covar : rmat) :
  learn_metric llt_L esc esh s win = inl (s', covar) ->
  nr covar = n_params_ s /\ nc covar = n_params_ s
  /\ (forall i j, ent covar i j = ent covar j i)
  /\ (forall i, 0 < ent covar i i)
  /\ (is_diagonal_ s' = true -> forall i j, i <> j -> ent covar i j = 0).
Proof.
  intros H. unfold learn_metric in H.
  destruct (collect_draws s) as [s1|e] eqn:Ec; simpl in H; [|discriminate].
  destruct (collect_draws_spec _ _ Ec) as (_ & _ & _ & Hnp & _).
  rewrite <- Hnp.
  assert (Hnd : (0 <= usable_draws s1 win)%Z) by (unfold usable_draws; lia).
  apply IZR_le in Hnd.
  destruct (learn_metric_passes _ _ _ s1 _ _) as [[c b]|e] eqn:Ep.
  - injection H as <- <-.
    destruct (learn_metric_passes_spec _ _ _ _ _ _ _ _ Ep)
      as (Nt & ct & cte & dense & diag & Er & Hb).
    destruct (pass_refinement_spec _ _ _ _ _ _ _ _ Er) as (Ytr & Eb & Ecov & Hd & Hdiag).
    destruct (rblock_dims _ _ _ _ _ _ Eb) as [_ Hw].
    destruct (covariance_shape _ _ Ecov) as (Hr & Hc & Hsym & Hpos).
    assert (Hdp : forall i, 0 < ent dense i i).
    { intros i. rewrite Hd. unfold shrunk_dense, radd, rscale, ridentity; simpl.
      rewrite Nat.eqb_refl. apply shrink_pos; auto. }
    assert (Hdr : nr dense = n_params_ s1) by (rewrite Hd; simpl; lia).
    assert (Hdc : nc dense = n_params_ s1) by (rewrite Hd; simpl; lia).
    destruct Hb as [[-> ->]|[-> ->]].
    + split; [exact Hdr|]. split; [exact Hdc|].
      split; [|split; [exact Hdp|intros Hf; discriminate Hf]].
      intros i j. rewrite Hd. unfold shrunk_dense, radd, rscale, ridentity; simpl.
      rewrite Hsym, Nat.eqb_sym. reflexivity.
    + rewrite Hdiag. unfold diagonal_projection.
      split; [simpl; lia|]. split; [simpl; lia|].
      split; [apply as_diagonal_sym|].
      split.
      * intros i. unfold as_diagonal; simpl. rewrite Nat.eqb_refl. apply Hdp.
      * intros _ i j Hij. unfold as_diagonal; simpl.
        rewrite (proj2 (Nat.eqb_neq i j) Hij). reflexivity.
  - destruct (is_exception e); [|discriminate]. injection H as <- <-.
    unfold fallback_metric.
    split; [reflexivity|]. split; [reflexivity|].
    split; [apply as_diagonal_sym|].
    split.
    + intros i. unfold as_diagonal; simpl. rewrite Nat.eqb_refl.
      apply shrink_pos; [exact Hnd|lra].
    + intros _ i j Hij. unfold as_diagonal; simpl.
      rewrite (proj2 (Nat.eqb_neq i j) Hij). reflexivity.
Qed.

Lemma for_loop_ind_idx {St : Type} (P : Z -> St -> Prop) (count : nat) (k : Z)
  (body : Z -> St -> res St) (s s' : St) :
  (forall k' t t', (k <= k' < k + Z.of_nat count)%Z -> body k' t = inl t' ->
     P k' t -> P (k' + 1)%Z t') ->
  for_loop count k body s = inl s' -> P k s -> P (k + Z.of_nat count)%Z s'.
Proof.
  revert k s; induction count as [|n IH]; intros k s Hb H Hs; simpl in H.
  - injection H as <-. rewrite Z.add_0_r. exact Hs.
  - destruct (body k s) as [t|e] eqn:E; simpl in H; [|discriminate].
    replace (k + Z.of_nat (S n))%Z with (k + 1 + Z.of_nat n)%Z by lia.
    apply (IH (k + 1)%Z t).
    + intros k' t0 t0' Hk. apply Hb. lia.
    + exact H.
    + apply (Hb k s t); [lia|exact E|exact Hs].
Qed.

Lemma write_draw_row_ent (index chain : Z) (s s' : auto_adaptation) (i j : nat) :
  write_draw_row index chain s = inl s' ->
  i <> Z.to_nat ((draws_collected_counter_ s + index) * num_chains_ s + chain) ->
  ent (Y_ s') i j = ent (Y_ s) i j.
Proof.
  intros H Hi. destruct (write_draw_row_ok _ _ _ _ H) as (D & _ & _ & _ & ->).
  simpl. rewrite (proj2 (Nat.eqb_neq _ _) Hi). reflexivity.
Qed.

Lemma collect_draws_Y (s s' : auto_adaptation) :
  collect_draws s = inl s' ->
  exists s1, for_loop (Z.to_nat (draw_req_counter_ s)) 0
               (fun index s =>
                  for_loop (Z.to_nat (num_chains_ s)) 0
                    (fun chain s => write_draw_row index chain s) s) s = inl s1
             /\ Y_ s' = Y_ s1.
Proof.
  unfold collect_draws.
  destruct (for_loop _ _ _ s) as [s1|e]; simpl; intros H; [|discriminate].
  injection H as <-. exists s1. auto.
Qed.

(** X21: [collect_draws] only writes the rows of [Y_] that belong to the
    pending requests: a row before
    [draws_collected_counter_ * num_chains_] or from
    [(draws_collected_counter_ + draw_req_counter_) * num_chains_] on
    keeps its entries. *)
Theorem collect_draws_rows_outside (s s' : auto_adaptation) :
  collect_draws s = inl s' ->
  forall i j,
    (Z.of_nat i < draws_collected_counter_ s * num_chains_ s
     \/ (draws_collected_counter_ s + draw_req_counter_ s) * num_chains_ s
        <= Z.of_nat i)%Z ->
  ent (Y_ s') i j = ent (Y_ s) i j.
Proof.
  intros H i j Hi. destruct (collect_draws_Y _ _ H) as (s1 & E & ->).
  set (d0 := draws_collected_counter_ s) in *.
  set (n0 := num_chains_ s) in *. set (q0 := draw_req_counter_ s) in *.
  assert (Hinv : same_but_Y s s1 /\ ent (Y_ s1) i j = ent (Y_ s) i j).
  { refine (for_loop_ind (fun t => same_but_Y s t /\ ent (Y_ t) i j = ent (Y_ s) i j)
              _ _ _ s s1 _ E _).
    - intros k t t' Hk Ht [Hst Het].
      refine (for_loop_ind (fun u => same_but_Y s u /\ ent (Y_ u) i j = ent (Y_ s) i j)
                _ _ _ t t' _ Ht (conj Hst Het)).
      intros c u u' Hc Hu [Hsu Heu]. split; [exact (write_draw_row_same _ _ _ _ _ Hu Hsu)|].
      destruct Hst as (Hnc & _). destruct Hsu as (Hnc' & _ & _ & _ & _ & _ & Hd & _).
      destruct (write_draw_row_ok _ _ _ _ Hu) as (D & _ & _ & Hr & _).
      rewrite (write_draw_row_ent _ _ _ _ _ _ Hu); [exact Heu|].
      rewrite Hd, Hnc' in *. fold d0 n0 in Hr |- *. rewrite Hnc in Hc. fold n0 in Hc.
      assert (Hq : (0 <= k < q0)%Z) by lia.
      assert (Hn : (0 <= c < n0)%Z) by lia.
      intros Heq. apply (f_equal Z.of_nat) in Heq. rewrite Z2Nat.id in Heq by exact Hr.
      destruct Hi as [Hi|Hi]; nia.
    - split; [unfold same_but_Y; tauto|reflexivity]. }
  exact (proj2 Hinv).
Qed.

(** X22: when [collect_draws] completes, row
    [(draws_collected_counter_ + k) * num_chains_ + ch] of [Y_] holds
    column [ch] of [draws[k]] (chain [ch]'s draw of request [k]), for
    every pending request [k] and every chain [ch]. *)
Theorem collect_draws_placement (s s' : auto_adaptation) :
  collect_draws s = inl s' ->
  forall k ch D, (0 <= k < draw_req_counter_ s)%Z -> (0 <= ch < num_chains_ s)%Z ->
  nth_error (draws s) (Z.to_nat k) = Some D ->
  forall j,
    ent (Y_ s') (Z.to_nat ((draws_collected_counter_ s + k) * num_chains_ s + ch)) j
    = ent D j (Z.to_nat ch).
Proof.
  intros H. destruct (collect_draws_Y _ _ H) as (s1 & E & ->).
  set (d0 := draws_collected_counter_ s). set (n0 := num_chains_ s).
  set (q0 := draw_req_counter_ s).
  set (done := fun (t : auto_adaptation) (k ch : Z) =>
    (0 <= (d0 + k) * n0 + ch)%Z /\
    forall D, nth_error (draws s) (Z.to_nat k) = Some D ->
    forall j, ent (Y_ t) (Z.to_nat ((d0 + k) * n0 + ch)) j = ent D j (Z.to_nat ch)).
  (* a write at row r keeps every other done row *)
  assert (Hkeep : forall u u' k' c k ch, write_draw_row k' c u = inl u' ->
             same_but_Y s u -> done u k ch ->
             ((d0 + k) * n0 + ch <> (d0 + k') * n0 + c)%Z -> done u' k ch).
  { intros u u' k' c k ch Hu Hsu [Hr0 Hdn] Hne.
    destruct Hsu as (Hnc & _ & _ & _ & _ & _ & Hd & _).
    destruct (write_draw_row_ok _ _ _ _ Hu) as (D0 & _ & _ & Hr & _).
    rewrite Hd, Hnc in Hr. fold d0 n0 in Hr.
    split; [exact Hr0|]. intros D HD j'.
    rewrite (write_draw_row_ent _ _ _ _ _ _ Hu); [exact (Hdn D HD j')|].
    rewrite Hd, Hnc. fold d0 n0. intros Heq.
    apply (f_equal Z.of_nat) in Heq. rewrite !Z2Nat.id in Heq by lia. lia. }
  assert (Hinv : same_but_Y s s1 /\
           forall k ch, (0 <= k < 0 + Z.of_nat (Z.to_nat q0))%Z -> (0 <= ch < n0)%Z ->
           done s1 k ch).
  { refine (for_loop_ind_idx (fun K t => same_but_Y s t /\
              forall k ch, (0 <= k < K)%Z -> (0 <= ch < n0)%Z -> done t k ch)
              _ _ _ s s1 _ E _).
    - intros k' t t' Hk Ht [Hst Hdt].
      assert (Hnt : num_chains_ t = n0) by apply Hst.
      assert (Hin : same_but_Y s t' /\
                (forall k ch, (0 <= k < k')%Z -> (0 <= ch < n0)%Z -> done t' k ch) /\
                (forall ch, (0 <= ch < 0 + Z.of_nat (Z.to_nat (num_chains_ t)))%Z ->
                   done t' k' ch)).
      { refine (for_loop_ind_idx (fun C u => same_but_Y s u /\
                  (forall k ch, (0 <= k < k')%Z -> (0 <= ch < n0)%Z -> done u k ch) /\
                  (forall ch, (0 <= ch < C)%Z -> done u k' ch))
                  _ _ _ t t' _ Ht _).
        - intros c u u' Hc Hu (Hsu & Hold & Hcur).
          rewrite Hnt in Hc.
          split; [exact (write_draw_row_same _ _ _ _ _ Hu Hsu)|]. split.
          + intros k ch Hk' Hch. apply (Hkeep u u' k' c); auto. nia.
          + intros ch Hch. destruct (Z.eq_dec ch c) as [->|Hne].
            * destruct Hsu as (Hnc & _ & _ & _ & _ & _ & Hd & _ & Hdr & _).
              destruct (write_draw_row_ok _ _ _ _ Hu) as (D0 & HD0 & _ & Hr & ->).
              rewrite Hd, Hnc in Hr. rewrite Hdr in HD0. fold d0 n0 in Hr.
              split; [exact Hr|]. intros D HD j. simpl.
              rewrite Hd, Hnc. fold d0 n0. rewrite Nat.eqb_refl. congruence.
            * apply (Hkeep u u' k' c); [exact Hu|exact Hsu|apply Hcur; lia|].
              intros Heq. apply Hne. lia.
        - split; [exact Hst|]. split; [intros; apply Hdt; lia|intros; lia]. }
      destruct Hin as (Hs' & Hold & Hcur). split; [exact Hs'|].
      intros k ch Hk' Hch. destruct (Z.eq_dec k k') as [->|Hne].
      + apply Hcur. rewrite Hnt. lia.
      + apply Hold; lia.
    - split; [unfold same_but_Y; tauto|intros; lia]. }
  intros k ch D Hk Hch HD j. apply (proj2 (proj2 Hinv k ch ltac:(lia) Hch)). exact HD.
Qed.



Lemma add_sample_history_witness :
  exists s', add_sample [6] (rzero 1 1) aa5 = Some s'
    /\ last_qs_ s' = [[2]; [3]; [4]; [5]; [6]] /\ draw_req_counter_ s' = 1%Z.
Proof.
  destruct (add_sample [6] (rzero 1 1) aa5) as [s'|] eqn:E; [|discriminate E].
  destruct (add_sample_history [6] (rzero 1 1) aa5 s') as (H1 & _ & H2 & _).
  - simpl; lia.
  - exact E.
  - exists s'. rewrite H1, H2. split; [reflexivity|split; reflexivity].
Defined.

Lemma add_samples_overflow_witness :
  add_samples [([1], rzero 1 1); ([2], rzero 1 1); ([3], rzero 1 1)] aa5 = None.
Proof.
  apply add_samples_overflow.
  - reflexivity.
  - simpl; lia.
Defined.

Lemma add_samples_collect_draws_witness :
  exists s1 s2, add_samples [([1], rzero 1 1); ([2], rzero 1 1)] aa5 = Some s1
    /\ collect_draws s1 = inl s2 /\ draw_req_counter_ s2 = 0%Z
    /\ draws_collected_counter_ s2 = 2%Z.
Proof.
  destruct (add_samples [([1], rzero 1 1); ([2], rzero 1 1)] aa5) as [s1|] eqn:E1;
    [|discriminate E1].
  destruct (collect_draws s1) as [s2|e] eqn:E2;
    [|injection E1 as <-; discriminate E2].
  destruct (add_samples_collect_draws _ aa5 s1 s2 eq_refl E1 E2) as [H1 H2].
  exists s1, s2. rewrite H1, H2. split; [reflexivity|split; [exact E2|split; reflexivity]].
Defined.


Lemma collect_draws_rows_outside_witness :
  exists s', collect_draws aa_req = inl s'
    /\ ent (Y_ s') 0 0 = 0 /\ ent (Y_ s') 2 0 = 2.
Proof.
  destruct (collect_draws aa_req) as [s'|e] eqn:E; [|discriminate E].
  exists s'. split; [reflexivity|split].
  - rewrite (collect_draws_rows_outside aa_req s' E 0 0) by (simpl; lia).
    reflexivity.
  - rewrite (collect_draws_rows_outside aa_req s' E 2 0) by (simpl; lia).
    simpl. lra.
Defined.

Lemma collect_draws_placement_witness :
  exists s', collect_draws aa_req = inl s' /\ ent (Y_ s') 1 0 = 7.
Proof.
  destruct (collect_draws aa_req) as [s'|e] eqn:E; [|discriminate E].
  exists s'. split; [reflexivity|].
  exact (collect_draws_placement aa_req s' E 0 0 (mk_rmat 1 1 (fun _ _ => 7))
           ltac:(simpl; lia) ltac:(simpl; lia) eq_refl 0).
Defined.

Lemma learn_metric_covar_shape_witness :
  exists s' covar,
    learn_metric (fun L => L) (fun _ _ => inl 1) (fun _ _ => inl 1)
      (mk_auto_adaptation 4 1 10 0 10 0 2 [] [] (rzero 40 1) false) 0
    = inl (s', covar) /\ nr covar = 1%Z /\ 0 < ent covar 0 0.
Proof.
  destruct (learn_metric (fun L => L) (fun _ _ => inl 1) (fun _ _ => inl 1)
      (mk_auto_adaptation 4 1 10 0 10 0 2 [] [] (rzero 40 1) false) 0)
    as [[s' covar]|e] eqn:E; [|discriminate E].
  destruct (learn_metric_covar_shape _ _ _ _ _ _ _ E) as (Hr & _ & _ & Hp & _).
  exists s', covar. split; [reflexivity|split; [exact Hr|apply Hp]].
Defined.

Lemma covariance_symmetric_witness :
  exists C, covariance (mk_rmat 2 2 (fun k j => INR (k + j))) = inl C
    /\ nr C = 2%Z /\ ent C 0 1 = ent C 1 0 /\ 0 <= ent C 1 1.
Proof.
  destruct (covariance (mk_rmat 2 2 (fun k j => INR (k + j)))) as [C|e] eqn:E;
    [|discriminate E].
  destruct (covariance_symmetric _ _ E) as (Hr & _ & Hs & Hp).
  exists C. split; [reflexivity|split; [exact Hr|split; [apply Hs|apply Hp]]].
Defined.
